(** * ParticleSystem: a shallow embedding of [ParticleSystem.cpp]

    The particle engine of [src/ParticleSystem.cpp] / [src/ParticleSystem.hpp]
    is embedded as pure functions over a record that mirrors the members of
    [class ParticleSystem].

    Conventions of the embedding.

    - [float] is idealised as an exact rational ([Q]): rounding, infinities
      and NaN are not modelled.  The embedding therefore agrees with the
      binary32 program on the control flow and on every run in which no
      operation rounds.  A statement that transcribes a computed value
      ([lifetime - dt], [cos a * velocity]) reads [-], [*], [/] as the
      source's float operations.  A statement that depends on the exact value
      of an accumulator or of a lifetime (a spawn count, the frame in which
      a particle retires) carries the hypothesis that the operations involved
      are exact in binary32 ([binary32], [run_exact], [ageing_exact]); without
      it the program can differ: the accumulator loses the bits a sum rounds
      away, and from about 2^25 the loop [m_timer -= 1.0f] makes no progress.
      In the closed counterexamples every value that decides the outcome is a
      small dyadic number, on which binary32 arithmetic is exact.
    - A quotient whose divisor is zero is not a finite number; where the
      source reads such a quotient ([ratio] in [update]) the model makes the
      case explicit with [fdiv].
    - [static_cast<sf::Uint8>] of a floating value is only defined by C++ when
      the truncated value fits in 8 bits; the alpha channel therefore holds an
      [option Z], [None] standing for "no defined value".
    - [std::list<std::unique_ptr<Particle>>] is a [list Particle] in
      collection order.  Erasing an entry destroys its particle; the write
      the source then makes through the dangling pointer (line 157 after
      line 155) is undefined behaviour and is given no value.
    - [std::size_t] is [nat]: the only arithmetic on it is the loop counter of
      [setExplosion], which never exceeds [splash_amount].
    - The process-wide random generator behind [frand] / [rand2f] is threaded
      through the record as [rand_state]. *)

From Stdlib Require Import QArith Qround Qabs Qminmax ZArith List Bool Lia Lqa.
Import ListNotations.

Set Implicit Arguments.
Open Scope Q_scope.

(** ** Numeric helpers *)

(** [x > y] on floats, as a boolean. *)
Definition Qgt_bool (x y : Q) : bool := negb (Qle_bool x y).

(** Truncation toward zero, the rounding of a float-to-integer conversion. *)
Definition Qtruncate (x : Q) : Z := Z.quot (Qnum x) (Zpos (Qden x)).

(** [static_cast<sf::Uint8>(x)]: defined when the truncated value is
    representable in 8 bits, undefined otherwise. *)
Definition static_cast_Uint8 (x : Q) : option Z :=
  let t := Qtruncate x in
  if ((0 <=? t) && (t <=? 255))%Z then Some t else None.

(** Float division that tells a finite quotient from a division by zero. *)
Definition fdiv (x y : Q) : option Q :=
  if Qeq_bool y 0 then None else Some (x / y).

(** [M_PI] of <cmath>: the double nearest to pi, [0x400921FB54442D18]. *)
Definition M_PI : Q := 884279719003555 # 281474976710656.

(** [std::cos] and [std::sin] are library functions, taken as parameters. *)
Class CMath := {
  cosf : Q -> Q;
  sinf : Q -> Q
}.

(** ** The rendering collaborator *)

Module sf.

Record Vector2f := mkVector2f { x : Q; y : Q }.

Definition vadd (a b : Vector2f) : Vector2f :=
  mkVector2f (x a + x b) (y a + y b).

Definition vscale (a : Vector2f) (k : Q) : Vector2f :=
  mkVector2f (x a * k) (y a * k).

Definition vzero : Vector2f := mkVector2f 0 0.

Record Color := mkColor { r : Z; g : Z; b : Z; a : option Z }.

Definition White : Color := mkColor 255 255 255 (Some 255%Z).

Record IntRect := mkIntRect { left : Z; top : Z; width : Z; height : Z }.

Definition IntRect_eqb (p q : IntRect) : bool :=
  ((left p =? left q) && (top p =? top q) &&
   (width p =? width q) && (height p =? height q))%Z.

Record Texture := mkTexture { tex_id : nat; tex_width : Z; tex_height : Z }.

(** Modelled from the spec: [sf::Angle] is declared outside the sources; the
    spec calls it "degrees or equivalent angular unit".  The model stores
    degrees. *)
Record Angle := degrees { asDegrees : Q }.

Definition asRadians (a : Angle) : Q := asDegrees a * (M_PI / 180).

Definition Angle_add (a b : Angle) : Angle :=
  degrees (asDegrees a + asDegrees b).

Definition Angle_mul (a : Angle) (k : Q) : Angle :=
  degrees (asDegrees a * k).

(** Modelled from the spec: [Sprite.hpp] is not among the sources.  The
    spec's Renderable holds "a 2D transform (position, rotation, non-uniform
    scale, origin/pivot) and a color (RGB + alpha)", bound to a texture
    reference and a source rectangle. *)
Record Sprite := mkSprite {
  texture : option Texture;
  textureRect : IntRect;
  color : Color;
  position : Vector2f;
  rotation : Angle;
  scale_ : Vector2f;
  origin : Vector2f
}.

Definition Sprite_default : Sprite :=
  mkSprite None (mkIntRect 0 0 0 0) White vzero (degrees 0)
           (mkVector2f 1 1) vzero.

Definition setTextureRect (rc : IntRect) (s : Sprite) : Sprite :=
  mkSprite (texture s) rc (color s) (position s) (rotation s) (scale_ s)
           (origin s).

Definition setTexture (t : Texture) (s : Sprite) : Sprite :=
  let s1 :=
    match texture s with
    | None =>
        if IntRect_eqb (textureRect s) (mkIntRect 0 0 0 0)
        then setTextureRect (mkIntRect 0 0 (tex_width t) (tex_height t)) s
        else s
    | Some _ => s
    end in
  mkSprite (Some t) (textureRect s1) (color s1) (position s1) (rotation s1)
           (scale_ s1) (origin s1).

Definition setColor (c : Color) (s : Sprite) : Sprite :=
  mkSprite (texture s) (textureRect s) c (position s) (rotation s)
           (scale_ s) (origin s).

Definition setPosition (p : Vector2f) (s : Sprite) : Sprite :=
  mkSprite (texture s) (textureRect s) (color s) p (rotation s) (scale_ s)
           (origin s).

Definition setRotation (a : Angle) (s : Sprite) : Sprite :=
  mkSprite (texture s) (textureRect s) (color s) (position s) a (scale_ s)
           (origin s).

Definition setScale (k : Vector2f) (s : Sprite) : Sprite :=
  mkSprite (texture s) (textureRect s) (color s) (position s) (rotation s)
           k (origin s).

Definition setOrigin (o : Vector2f) (s : Sprite) : Sprite :=
  mkSprite (texture s) (textureRect s) (color s) (position s) (rotation s)
           (scale_ s) o.

(** [move(offset)]: the position advances by [offset]. *)
Definition move (offset : Vector2f) (s : Sprite) : Sprite :=
  setPosition (vadd (position s) offset) s.

(** [scale(factor)]: the current scale is multiplied componentwise. *)
Definition scale (factor : Vector2f) (s : Sprite) : Sprite :=
  setScale (mkVector2f (x (scale_ s) * x factor) (y (scale_ s) * y factor)) s.

Definition setAlpha (v : option Z) (c : Color) : Color :=
  mkColor (r c) (g c) (b c) v.

End sf.

(** ** Utils.hpp *)

(** Modelled from the spec: [Utils.hpp] ([frand], [rand2f]) is not among the
    sources.  The spec reads [frand(lo, hi)] as [uniform(lo, hi)] and
    [rand2f(area)] as the jitter [(uniform(0, area.x), uniform(0, area.y))].
    Both draw from a generator whose state is [Rng]. *)
Class Utils := {
  Rng : Type;
  frand : Q -> Q -> Rng -> Q * Rng;
  rand2f : sf.Vector2f -> Rng -> sf.Vector2f * Rng
}.

(** The contract the spec gives [uniform(lo, hi)]: the sample lies between
    its bounds. *)
Definition frand_in_range (U : Utils) : Prop :=
  forall lo hi (g : Rng), lo <= hi ->
    lo <= fst (frand lo hi g) /\ fst (frand lo hi g) <= hi.

(** ** The particle engine *)

Section ParticleSystem.

Context {U : Utils} {M : CMath}.

Record ParticleController := mkController {
  velocity : sf.Vector2f;
  lifetime : Q
}.

Record Particle := mkParticle {
  controller : ParticleController;
  sprite : sf.Sprite
}.

Record ParticleSystem := mkParticleSystem {
  m_particles : list Particle;
  m_emitter : sf.Vector2f;
  m_respawn_area : sf.Vector2f;
  m_particle_size : sf.Vector2f;
  m_exponential_growth : sf.Vector2f;
  m_direction : sf.Angle;
  m_dispersion : sf.Angle;
  m_velocity : Q;
  m_lifetime_max : Q;
  m_rate : Q;
  m_timer : Q;
  m_is_emitted : bool;
  m_is_attenuated : bool;
  m_instance : sf.Sprite;
  rand_state : Rng
}.

(** Member assignments. *)

Definition set_particles (v : list Particle) (s : ParticleSystem) :=
  mkParticleSystem v (m_emitter s) (m_respawn_area s) (m_particle_size s)
    (m_exponential_growth s) (m_direction s) (m_dispersion s) (m_velocity s)
    (m_lifetime_max s) (m_rate s) (m_timer s) (m_is_emitted s)
    (m_is_attenuated s) (m_instance s) (rand_state s).

Definition set_particle_size (v : sf.Vector2f) (s : ParticleSystem) :=
  mkParticleSystem (m_particles s) (m_emitter s) (m_respawn_area s) v
    (m_exponential_growth s) (m_direction s) (m_dispersion s) (m_velocity s)
    (m_lifetime_max s) (m_rate s) (m_timer s) (m_is_emitted s)
    (m_is_attenuated s) (m_instance s) (rand_state s).

Definition set_timer (v : Q) (s : ParticleSystem) :=
  mkParticleSystem (m_particles s) (m_emitter s) (m_respawn_area s)
    (m_particle_size s) (m_exponential_growth s) (m_direction s)
    (m_dispersion s) (m_velocity s) (m_lifetime_max s) (m_rate s) v
    (m_is_emitted s) (m_is_attenuated s) (m_instance s) (rand_state s).

Definition set_instance (v : sf.Sprite) (s : ParticleSystem) :=
  mkParticleSystem (m_particles s) (m_emitter s) (m_respawn_area s)
    (m_particle_size s) (m_exponential_growth s) (m_direction s)
    (m_dispersion s) (m_velocity s) (m_lifetime_max s) (m_rate s) (m_timer s)
    (m_is_emitted s) (m_is_attenuated s) v (rand_state s).

Definition set_rand_state (v : Rng) (s : ParticleSystem) :=
  mkParticleSystem (m_particles s) (m_emitter s) (m_respawn_area s)
    (m_particle_size s) (m_exponential_growth s) (m_direction s)
    (m_dispersion s) (m_velocity s) (m_lifetime_max s) (m_rate s) (m_timer s)
    (m_is_emitted s) (m_is_attenuated s) (m_instance s) v.

(** [ParticleSystem::ParticleSystem()].  Members absent from the initialiser
    list are default-constructed; [g] is the state of the generator when the
    engine is created. *)
Definition ParticleSystem_new (g : Rng) : ParticleSystem :=
  mkParticleSystem [] sf.vzero sf.vzero (sf.mkVector2f 32 32)
    (sf.mkVector2f 1 1) (sf.degrees 0) (sf.degrees 0) 0 0 0 0 false false
    sf.Sprite_default g.

(** [ParticleSystem::setSize].  The quotients are exact here and rounded to
    binary32 in the source. *)
Definition setSize (sp : sf.Sprite) (size : sf.Vector2f) : sf.Sprite :=
  let rect := sf.textureRect sp in
  if (negb (sf.width rect =? 0) && negb (sf.height rect =? 0))%Z then
    let width := sf.x size / inject_Z (Z.abs (sf.width rect)) in
    let height := sf.y size / inject_Z (Z.abs (sf.height rect)) in
    sf.setScale (sf.mkVector2f width height) sp
  else sp.

Definition setColor (c : sf.Color) (s : ParticleSystem) : ParticleSystem :=
  set_instance (sf.setColor c (m_instance s)) s.

Definition setParticleSize (size : sf.Vector2f) (s : ParticleSystem)
  : ParticleSystem :=
  let s1 := set_particle_size size s in
  let s2 := set_instance (setSize (m_instance s1) size) s1 in
  set_instance (sf.setOrigin (sf.vscale size (1 # 2)) (m_instance s2)) s2.

Definition setTexture (t : sf.Texture) (s : ParticleSystem) : ParticleSystem :=
  let s1 := set_instance (sf.setTexture t (m_instance s)) s in
  let s2 :=
    setParticleSize
      (sf.mkVector2f (inject_Z (sf.tex_width t)) (inject_Z (sf.tex_height t)))
      s1 in
  set_instance
    (sf.setOrigin (sf.vscale (m_particle_size s2) (1 # 2)) (m_instance s2)) s2.

Definition setEmitter (emitter : sf.Vector2f) (s : ParticleSystem) :=
  mkParticleSystem (m_particles s) emitter (m_respawn_area s)
    (m_particle_size s) (m_exponential_growth s) (m_direction s)
    (m_dispersion s) (m_velocity s) (m_lifetime_max s) (m_rate s) (m_timer s)
    (m_is_emitted s) (m_is_attenuated s) (m_instance s) (rand_state s).

Definition setDirection (direction : sf.Angle) (s : ParticleSystem) :=
  mkParticleSystem (m_particles s) (m_emitter s) (m_respawn_area s)
    (m_particle_size s) (m_exponential_growth s) direction (m_dispersion s)
    (m_velocity s) (m_lifetime_max s) (m_rate s) (m_timer s) (m_is_emitted s)
    (m_is_attenuated s) (m_instance s) (rand_state s).

Definition setDispersion (dispersion : sf.Angle) (s : ParticleSystem) :=
  mkParticleSystem (m_particles s) (m_emitter s) (m_respawn_area s)
    (m_particle_size s) (m_exponential_growth s) (m_direction s) dispersion
    (m_velocity s) (m_lifetime_max s) (m_rate s) (m_timer s) (m_is_emitted s)
    (m_is_attenuated s) (m_instance s) (rand_state s).

Definition setVelocity (v : Q) (s : ParticleSystem) :=
  mkParticleSystem (m_particles s) (m_emitter s) (m_respawn_area s)
    (m_particle_size s) (m_exponential_growth s) (m_direction s)
    (m_dispersion s) (Qabs v) (m_lifetime_max s) (m_rate s) (m_timer s)
    (m_is_emitted s) (m_is_attenuated s) (m_instance s) (rand_state s).

Definition setRespawnRate (rate : Q) (s : ParticleSystem) :=
  mkParticleSystem (m_particles s) (m_emitter s) (m_respawn_area s)
    (m_particle_size s) (m_exponential_growth s) (m_direction s)
    (m_dispersion s) (m_velocity s) (m_lifetime_max s) (Qabs rate) (m_timer s)
    (m_is_emitted s) (m_is_attenuated s) (m_instance s) (rand_state s).

Definition setRespawnArea (area : sf.Vector2f) (s : ParticleSystem) :=
  mkParticleSystem (m_particles s) (m_emitter s) area (m_particle_size s)
    (m_exponential_growth s) (m_direction s) (m_dispersion s) (m_velocity s)
    (m_lifetime_max s) (m_rate s) (m_timer s) (m_is_emitted s)
    (m_is_attenuated s) (m_instance s) (rand_state s).

Definition setLifeTime (l : Q) (s : ParticleSystem) :=
  mkParticleSystem (m_particles s) (m_emitter s) (m_respawn_area s)
    (m_particle_size s) (m_exponential_growth s) (m_direction s)
    (m_dispersion s) (m_velocity s) (Qabs l) (m_rate s) (m_timer s)
    (m_is_emitted s) (m_is_attenuated s) (m_instance s) (rand_state s).

Definition setExponentialGrowth (factors : sf.Vector2f) (s : ParticleSystem) :=
  mkParticleSystem (m_particles s) (m_emitter s) (m_respawn_area s)
    (m_particle_size s) factors (m_direction s) (m_dispersion s) (m_velocity s)
    (m_lifetime_max s) (m_rate s) (m_timer s) (m_is_emitted s)
    (m_is_attenuated s) (m_instance s) (rand_state s).

Definition setEmitted (emitted : bool) (s : ParticleSystem) :=
  mkParticleSystem (m_particles s) (m_emitter s) (m_respawn_area s)
    (m_particle_size s) (m_exponential_growth s) (m_direction s)
    (m_dispersion s) (m_velocity s) (m_lifetime_max s) (m_rate s) (m_timer s)
    emitted (m_is_attenuated s) (m_instance s) (rand_state s).

Definition setAttenuated (attenuation : bool) (s : ParticleSystem) :=
  mkParticleSystem (m_particles s) (m_emitter s) (m_respawn_area s)
    (m_particle_size s) (m_exponential_growth s) (m_direction s)
    (m_dispersion s) (m_velocity s) (m_lifetime_max s) (m_rate s) (m_timer s)
    (m_is_emitted s) attenuation (m_instance s) (rand_state s).

(** *** Spawning *)

(** The particle built by one iteration of the loop of [setExplosion], from the
    sampled [frand(0, m_lifetime_max)]. *)
Definition explosion_particle (i : nat) (offset radius sample : Q)
           (s : ParticleSystem) : Particle :=
  let dir := inject_Z (Z.of_nat i) * offset in
  let sine := sinf dir in
  let cosine := cosf dir in
  let x := cosine * radius + sf.x (m_emitter s) in
  let y := sine * radius + sf.y (m_emitter s) in
  mkParticle
    (mkController (sf.mkVector2f (cosine * m_velocity s) (sine * m_velocity s))
                  (sample + 1))
    (sf.setPosition (sf.mkVector2f x y) (m_instance s)).

Definition explosion_body (i : nat) (offset radius : Q) (s : ParticleSystem)
  : ParticleSystem :=
  let (sample, g1) := frand 0 (m_lifetime_max s) (rand_state s) in
  set_rand_state g1
    (set_particles
       (m_particles s ++ [explosion_particle i offset radius sample s]) s).

(** [for (size_t i = 0; i < splash_amount; ++i)]: [count] iterations are left
    and the counter stands at [i]. *)
Fixpoint explosion_loop (count i : nat) (offset radius : Q)
         (s : ParticleSystem) : ParticleSystem :=
  match count with
  | O => s
  | S count' =>
      explosion_loop count' (S i) offset radius
                     (explosion_body i offset radius s)
  end.

(** [ParticleSystem::setExplosion].  When [splash_amount] is zero the quotient
    [offset] is an infinity in the source; the loop body, its only reader,
    does not run then. *)
Definition setExplosion (splash_amount : nat) (radius : Q)
           (s : ParticleSystem) : ParticleSystem :=
  match m_particles s with
  | [] =>
      let s1 := setEmitted false s in
      let offset := M_PI * 2 / inject_Z (Z.of_nat splash_amount) in
      explosion_loop splash_amount 0 offset radius s1
  | _ :: _ => s
  end.

(** [ParticleSystem::createParticle] *)
Definition createParticle (s : ParticleSystem) : ParticleSystem :=
  let half_disp := sf.asDegrees (sf.Angle_mul (m_dispersion s) (1 # 2)) in
  let (random, g1) := frand (- half_disp) half_disp (rand_state s) in
  let angle :=
    sf.asRadians (sf.Angle_add (m_direction s) (sf.degrees random)) in
  let vel :=
    sf.mkVector2f (cosf angle * m_velocity s) (sinf angle * m_velocity s) in
  let (sample, g2) := frand 0 (m_lifetime_max s) g1 in
  let (respawn_point, g3) := rand2f (m_respawn_area s) g2 in
  let offset := sf.vadd (m_emitter s) respawn_point in
  let (rot, g4) := frand 0 360 g3 in
  let particle :=
    mkParticle (mkController vel (sample + 1))
      (sf.setRotation (sf.degrees rot)
         (sf.setPosition offset (m_instance s))) in
  set_rand_state g4 (set_particles (m_particles s ++ [particle]) s).

(** *** The frame step *)

(** [while (m_timer > 1.0f) { m_timer -= 1.0f; createParticle(); }] with an
    explicit bound on the number of iterations.  The subtraction is exact
    here; [accumulator_exact] names the runs on which it is exact in the
    source too. *)
Fixpoint drain (fuel : nat) (s : ParticleSystem) : ParticleSystem :=
  match fuel with
  | O => s
  | S fuel' =>
      if Qgt_bool (m_timer s) 1
      then drain fuel' (createParticle (set_timer (m_timer s - 1) s))
      else s
  end.

(** A bound that lets the loop run to its exit (see [drain_exits]). *)
Definition drain_fuel (s : ParticleSystem) : nat :=
  Z.to_nat (Qceiling (m_timer s)).

(** Lines 124-131 of [update]: the accumulator and the spawn loop.  The sum
    [m_timer + m_rate * dt] is exact here; [update_exact] names the calls on
    which it is exact in the source too. *)
Definition emit (dt : Q) (s : ParticleSystem) : ParticleSystem :=
  let s1 :=
    if m_is_emitted s then set_timer (m_timer s + m_rate s * dt) s else s in
  drain (drain_fuel s1) s1.

(** The alpha written by the attenuation branch: [ratio * 255] converted to
    [sf::Uint8], where [ratio = lifetime / m_lifetime_max]. *)
Definition attenuated_alpha (ratio : option Q) : option Z :=
  match ratio with
  | Some q => static_cast_Uint8 (q * 255)
  | None => None
  end.

(** One turn of the particle loop (lines 135-157): whether the entry stays in
    the list and, when it stays, the particle after line 157.  In the [else]
    branch [erase] has destroyed the particle before line 157 writes through
    the pointer to it: that write has no defined effect, and the second
    component is then the particle as it was when it was erased. *)
Definition visit (s : ParticleSystem) (dt : Q) (p : Particle)
  : bool * Particle :=
  let c := controller p in
  if Qgt_bool (lifetime c) 0 then
    let sp1 := sf.move (sf.vscale (velocity c) dt) (sprite p) in
    let ratio := fdiv (lifetime c) (m_lifetime_max s) in
    let sp2 :=
      if m_is_attenuated s
      then sf.setColor (sf.setAlpha (attenuated_alpha ratio) (sf.color sp1)) sp1
      else sp1 in
    let sp3 := sf.scale (m_exponential_growth s) sp2 in
    (true, mkParticle (mkController (velocity c) (lifetime c - dt)) sp3)
  else
    (false, p).

(** The [for] loop over [m_particles]: erased entries leave the list, the
    others stay in order. *)
Fixpoint pass (s : ParticleSystem) (dt : Q) (ps : list Particle)
  : list Particle :=
  match ps with
  | [] => []
  | p :: rest =>
      let (keep, p') := visit s dt p in
      if keep then p' :: pass s dt rest else pass s dt rest
  end.

(** [ParticleSystem::update] *)
Definition update (dt : Q) (s : ParticleSystem) : ParticleSystem :=
  let s1 := emit dt s in
  set_particles (pass s1 dt (m_particles s1)) s1.

(** The number of [createParticle] calls made by [update dt] from [s]: every
    call appends one entry and nothing is erased before the loop ends. *)
Definition spawned_by_update (dt : Q) (s : ParticleSystem) : nat :=
  (length (m_particles (emit dt s)) - length (m_particles s))%nat.

(** The same count over successive [update] calls. *)
Fixpoint spawned_by_updates (dts : list Q) (s : ParticleSystem) : nat :=
  match dts with
  | [] => O
  | dt :: rest =>
      (spawned_by_update dt s + spawned_by_updates rest (update dt s))%nat
  end.

Fixpoint updates (dts : list Q) (s : ParticleSystem) : ParticleSystem :=
  match dts with
  | [] => s
  | dt :: rest => updates rest (update dt s)
  end.

(** States reachable through the public interface. *)
Inductive reachable : ParticleSystem -> Prop :=
| reach_new g : reachable (ParticleSystem_new g)
| reach_setTexture t s : reachable s -> reachable (setTexture t s)
| reach_setColor c s : reachable s -> reachable (setColor c s)
| reach_setParticleSize v s : reachable s -> reachable (setParticleSize v s)
| reach_setEmitter v s : reachable s -> reachable (setEmitter v s)
| reach_setDirection a s : reachable s -> reachable (setDirection a s)
| reach_setDispersion a s : reachable s -> reachable (setDispersion a s)
| reach_setVelocity v s : reachable s -> reachable (setVelocity v s)
| reach_setRespawnRate v s : reachable s -> reachable (setRespawnRate v s)
| reach_setRespawnArea v s : reachable s -> reachable (setRespawnArea v s)
| reach_setLifeTime v s : reachable s -> reachable (setLifeTime v s)
| reach_setExponentialGrowth v s :
    reachable s -> reachable (setExponentialGrowth v s)
| reach_setEmitted e s : reachable s -> reachable (setEmitted e s)
| reach_setAttenuated e s : reachable s -> reachable (setAttenuated e s)
| reach_setExplosion n radius s : reachable s -> reachable (setExplosion n radius s)
| reach_update dt s : reachable s -> reachable (update dt s).

End ParticleSystem.

(** ** Concrete collaborators for closed examples *)

(** A generator that reads its samples from a tape: each entry [u] is clamped
    to [[0, 1]] and [frand lo hi] returns [lo + u * (hi - lo)]; an exhausted
    tape keeps yielding [0]. *)
Definition tape_next (g : list Q) : Q * list Q :=
  match g with
  | [] => (0, [])
  | u :: g' => (Qmax 0 (Qmin 1 u), g')
  end.

Definition tape_frand (lo hi : Q) (g : list Q) : Q * list Q :=
  let (u, g') := tape_next g in (Qred (lo + u * (hi - lo)), g').

Definition tape_rand2f (area : sf.Vector2f) (g : list Q)
  : sf.Vector2f * list Q :=
  let (jx, g1) := tape_frand 0 (sf.x area) g in
  let (jy, g2) := tape_frand 0 (sf.y area) g1 in
  (sf.mkVector2f jx jy, g2).

#[export] Instance TapeUtils : Utils :=
  {| Rng := list Q; frand := tape_frand; rand2f := tape_rand2f |}.

(** Taylor polynomials of degree 4 and 5 standing in for [std::cos] and
    [std::sin]; they are exact at [0], the only angle the closed examples
    use. *)
Definition poly_cos (t : Q) : Q :=
  Qred (1 - t * t / 2 + t * t * t * t / 24).

Definition poly_sin (t : Q) : Q :=
  Qred (t - t * t * t / 6 + t * t * t * t * t / 120).

#[export] Instance PolyCMath : CMath := {| cosf := poly_cos; sinf := poly_sin |}.

(** The spec's [clamp(v, lo, hi)]. *)
Definition clamp (v lo hi : Q) : Q := Qmax lo (Qmin hi v).

(** The sum of the time steps of a sequence of [update] calls. *)
Definition total_time (dts : list Q) : Q := fold_right Qplus 0 dts.

(** The closed form of the number of turns of the spawn loop started with
    accumulator [t]. *)
Definition drain_count (t : Q) : nat := Z.to_nat (Qceiling t - 1).

Definition lifetimes (ps : list Particle) : list Q :=
  map (fun p => Qred (lifetime (controller p))) ps.

Definition alphas (ps : list Particle) : list (option Z) :=
  map (fun p => sf.a (sf.color (sprite p))) ps.

(** ** Engines used in the closed examples *)

(** A freshly constructed engine; its generator tape is empty, so every
    [frand(lo, hi)] yields [lo]. *)
Definition engine0 : ParticleSystem := ParticleSystem_new (U := TapeUtils) [].

(** [setRespawnRate(2); setEmitted(true)] on a fresh engine. *)
Definition steady_emitter : ParticleSystem :=
  setEmitted true (setRespawnRate 2 engine0).

(** The same emitter after [update(0.25)], then switched off: the accumulator
    holds the fraction [0.5]. *)
Definition paused_emitter : ParticleSystem :=
  setEmitted false (update (1 # 4) steady_emitter).

(** [setExplosion(1, 0)] on a fresh engine: one particle of lifetime [1]. *)
Definition one_spark : ParticleSystem := setExplosion 1 0 engine0.

Definition still_particle : Particle :=
  mkParticle (mkController sf.vzero 0) sf.Sprite_default.

Definition spark : Particle := hd still_particle (m_particles one_spark).

(** [setLifeTime(0.5); setAttenuated(true); setExplosion(1, 0)]: one particle
    of lifetime [1], twice [lifetimeMax]. *)
Definition fading_spark : ParticleSystem :=
  setExplosion 1 0 (setAttenuated true (setLifeTime (1 # 2) engine0)).

(** [setLifeTime(4); setAttenuated(true)] and a particle half way through
    that lifetime. *)
Definition fading_engine : ParticleSystem :=
  setAttenuated true (setLifeTime 4 engine0).

Definition half_faded : Particle :=
  mkParticle (mkController (sf.mkVector2f 1 0) 2) sf.Sprite_default.


(** ** Vocabulary of the statements *)

Section Vocabulary.

Context {U : Utils} {M : CMath}.

(** Every member other than the particle list, the accumulator and the
    generator state is the same in [s] and [s']. *)
Record same_config (s s' : ParticleSystem) : Prop := mk_same_config {
  cfg_emitter : m_emitter s' = m_emitter s;
  cfg_respawn_area : m_respawn_area s' = m_respawn_area s;
  cfg_particle_size : m_particle_size s' = m_particle_size s;
  cfg_exponential_growth : m_exponential_growth s' = m_exponential_growth s;
  cfg_direction : m_direction s' = m_direction s;
  cfg_dispersion : m_dispersion s' = m_dispersion s;
  cfg_velocity : m_velocity s' = m_velocity s;
  cfg_lifetime_max : m_lifetime_max s' = m_lifetime_max s;
  cfg_rate : m_rate s' = m_rate s;
  cfg_is_emitted : m_is_emitted s' = m_is_emitted s;
  cfg_is_attenuated : m_is_attenuated s' = m_is_attenuated s;
  cfg_instance : m_instance s' = m_instance s
}.

(** [p] was given the lifetime [frand(0, lmax) + 1.0f] at some state of the
    generator. *)
Definition fresh_lifetime (lmax : Q) (p : Particle) : Prop :=
  exists g : Rng, lifetime (controller p) = fst (frand 0 lmax g) + 1.

(** What the spec asks of an initial lifetime drawn with bound [lmax]. *)
Definition spawn_lifetime_ok (lmax : Q) (p : Particle) : Prop :=
  fresh_lifetime lmax p
  /\ 1 <= lifetime (controller p)
  /\ lifetime (controller p) <= lmax + 1
  /\ (lmax == 0 -> lifetime (controller p) == 1).


End Vocabulary.

(** ** Runs without rounding *)

(** [q] is a finite binary32 number: [m * 2^e] with a 24-bit significand and
    an exponent between those of the smallest subnormal and of the largest
    finite value.  An IEEE operation whose exact result is such a number
    returns it. *)
Definition binary32 (q : Q) : Prop :=
  exists m e : Z,
    (Z.abs m < 2 ^ 24)%Z /\ (-149 <= e <= 104)%Z /\ q == inject_Z m * 2 ^ e.

(** The spawn loop started with accumulator [t] only meets binary32 values:
    [t] itself and [t - 1], [t - 2], ... down to the value it stops at. *)
Definition accumulator_exact (t : Q) : Prop :=
  forall k : nat, (k <= drain_count t)%nat ->
                  binary32 (t - inject_Z (Z.of_nat k)).

(** A particle of lifetime [l] goes through the frames [dts] without any of
    its decrements [lifetime -= dt] rounding, for as long as it is kept. *)
Fixpoint ageing_exact (dts : list Q) (l : Q) : Prop :=
  match dts with
  | [] => True
  | dt :: rest =>
      binary32 dt
      /\ (0 < l -> binary32 (l - dt) /\ ageing_exact rest (l - dt))
  end.

(** ** Accessors, drawing and repeated frames *)

Section Observers.

Context {U : Utils} {M : CMath}.

(** The getters of [ParticleSystem.cpp], lines 163-226. *)
Definition getTexture (s : ParticleSystem) : option sf.Texture :=
  sf.texture (m_instance s).
Definition getColor (s : ParticleSystem) : sf.Color := sf.color (m_instance s).
Definition getParticleSize (s : ParticleSystem) : sf.Vector2f :=
  m_particle_size s.
Definition getEmitter (s : ParticleSystem) : sf.Vector2f := m_emitter s.
Definition getDirection (s : ParticleSystem) : sf.Angle := m_direction s.
Definition getDispersion (s : ParticleSystem) : sf.Angle := m_dispersion s.
Definition getVelocity (s : ParticleSystem) : Q := m_velocity s.
Definition getRespawnRate (s : ParticleSystem) : Q := m_rate s.
Definition getRespawnArea (s : ParticleSystem) : sf.Vector2f :=
  m_respawn_area s.
Definition getLifeTime (s : ParticleSystem) : Q := m_lifetime_max s.
Definition getExponentialGrowth (s : ParticleSystem) : sf.Vector2f :=
  m_exponential_growth s.
Definition isEmitted (s : ParticleSystem) : bool := m_is_emitted s.
Definition isAttenuated (s : ParticleSystem) : bool := m_is_attenuated s.

(** [ParticleSystem::draw]: the sprites handed to [target.draw], in the order
    of the calls. *)
Definition draw (s : ParticleSystem) : list sf.Sprite :=
  map sprite (m_particles s).

(** The particle loops of successive frames applied to a list of particles. *)
Fixpoint passes (cfg : ParticleSystem) (dts : list Q) (ps : list Particle)
  : list Particle :=
  match dts with
  | [] => ps
  | dt :: rest => passes cfg rest (pass cfg dt ps)
  end.

(** [sp] carries the texture, source rectangle, colour, scale and origin of
    the template [t]. *)
Definition from_template (t sp : sf.Sprite) : Prop :=
  sf.texture sp = sf.texture t
  /\ sf.textureRect sp = sf.textureRect t
  /\ sf.color sp = sf.color t
  /\ sf.scale_ sp = sf.scale_ t
  /\ sf.origin sp = sf.origin t.

(** The time elapsed before the last of the frames [dts] starts. *)
Definition time_before_last (dts : list Q) : Q := total_time (removelast dts).

(** Lines 124-131 of [update dt] run from [s] without rounding: the operands
    are binary32 values, and so are the product [m_rate * dt], the sum
    [m_timer + m_rate * dt] and every value the loop gives the accumulator. *)
Definition update_exact (dt : Q) (s : ParticleSystem) : Prop :=
  binary32 (m_timer s)
  /\ (m_is_emitted s = true ->
      binary32 (m_rate s) /\ binary32 dt /\ binary32 (m_rate s * dt))
  /\ accumulator_exact
       (if m_is_emitted s then m_timer s + m_rate s * dt else m_timer s).

(** The same for every call of a run of [update] calls. *)
Fixpoint run_exact (dts : list Q) (s : ParticleSystem) : Prop :=
  match dts with
  | [] => True
  | dt :: rest => update_exact dt s /\ run_exact rest (update dt s)
  end.

End Observers.

(** A 64 x 32 texture bound to a fresh engine. *)
Definition textured_engine : ParticleSystem :=
  setTexture (sf.mkTexture 1 64 32) engine0.

(** A particle a quarter of the way through the lifetime of
    [fading_engine]. *)
Definition nearly_faded : Particle :=
  mkParticle (mkController (sf.mkVector2f 0 1) 1) sf.Sprite_default.

(** * Properties *)

(** ** Arithmetic of the accumulator *)

Lemma Qgt_bool_true (x y : Q) : Qgt_bool x y = true <-> y < x.
Proof.
  unfold Qgt_bool. rewrite negb_true_iff. split.
  - intros H. apply Qnot_le_lt. intros Hle.
    apply Qle_bool_iff in Hle. congruence.
  - intros H. destruct (Qle_bool x y) eqn:E; [|reflexivity].
    apply Qle_bool_iff in E. lra.
Qed.

Lemma Qgt_bool_false (x y : Q) : Qgt_bool x y = false <-> x <= y.
Proof.
  unfold Qgt_bool. rewrite negb_false_iff. apply Qle_bool_iff.
Qed.

(** The ceiling is the only integer [n] with [n - 1 < x <= n]. *)
Lemma Qceiling_unique (x : Q) (n : Z) :
  inject_Z n - 1 < x -> x <= inject_Z n -> Qceiling x = n.
Proof.
  intros Hlo Hhi.
  pose proof (Qle_ceiling x) as H1.
  pose proof (Qceiling_lt x) as H2.
  assert (Hm : inject_Z (Qceiling x - 1) == inject_Z (Qceiling x) - 1).
  { rewrite <- Z.add_opp_r, inject_Z_plus. reflexivity. }
  rewrite Hm in H2.
  assert (A : inject_Z (Qceiling x) - 1 < inject_Z n) by lra.
  assert (B : inject_Z n - 1 < inject_Z (Qceiling x)) by lra.
  assert (A' : inject_Z (Qceiling x - 1) < inject_Z n) by (rewrite Hm; exact A).
  assert (Hn : inject_Z (n - 1) == inject_Z n - 1).
  { rewrite <- Z.add_opp_r, inject_Z_plus. reflexivity. }
  assert (B' : inject_Z (n - 1) < inject_Z (Qceiling x)) by (rewrite Hn; exact B).
  rewrite <- Zlt_Qlt in A', B'. lia.
Qed.

Lemma Qceiling_shift (x : Q) (n : Z) :
  Qceiling (x - inject_Z n) = (Qceiling x - n)%Z.
Proof.
  apply Qceiling_unique.
  - pose proof (Qceiling_lt x) as H.
    assert (Hm : inject_Z (Qceiling x - 1) == inject_Z (Qceiling x) - 1).
    { rewrite <- Z.add_opp_r, inject_Z_plus. reflexivity. }
    rewrite Hm in H.
    assert (Hn : inject_Z (Qceiling x - n) == inject_Z (Qceiling x) - inject_Z n).
    { rewrite <- Z.add_opp_r, inject_Z_plus, inject_Z_opp. reflexivity. }
    rewrite Hn. lra.
  - pose proof (Qle_ceiling x) as H.
    assert (Hn : inject_Z (Qceiling x - n) == inject_Z (Qceiling x) - inject_Z n).
    { rewrite <- Z.add_opp_r, inject_Z_plus, inject_Z_opp. reflexivity. }
    rewrite Hn. lra.
Qed.

Lemma Qceiling_le_1 (x : Q) : x <= 1 -> (Qceiling x <= 1)%Z.
Proof.
  intros H. pose proof (Qceiling_lt x) as H2.
  assert (Hm : inject_Z (Qceiling x - 1) == inject_Z (Qceiling x) - 1).
  { rewrite <- Z.add_opp_r, inject_Z_plus. reflexivity. }
  rewrite Hm in H2.
  assert (A : inject_Z (Qceiling x) < inject_Z 2).
  { change (inject_Z 2) with 2. lra. }
  rewrite <- Zlt_Qlt in A. lia.
Qed.

Lemma Qceiling_gt_1 (x : Q) : 1 < x -> (2 <= Qceiling x)%Z.
Proof.
  intros H. pose proof (Qle_ceiling x) as H1.
  assert (A : inject_Z 1 < inject_Z (Qceiling x)).
  { change (inject_Z 1) with 1. lra. }
  rewrite <- Zlt_Qlt in A. lia.
Qed.

Lemma Qceiling_pos (x : Q) : 0 < x -> (1 <= Qceiling x)%Z.
Proof.
  intros H. pose proof (Qle_ceiling x) as H1.
  assert (A : inject_Z 0 < inject_Z (Qceiling x)).
  { change (inject_Z 0) with 0. lra. }
  rewrite <- Zlt_Qlt in A. lia.
Qed.

Lemma drain_count_le_1 (t : Q) : t <= 1 -> drain_count t = O.
Proof.
  intros H. unfold drain_count. pose proof (Qceiling_le_1 H). lia.
Qed.

Lemma drain_count_gt_1 (t : Q) :
  1 < t -> drain_count t = S (drain_count (t - 1)).
Proof.
  intros H. unfold drain_count.
  change (t - 1) with (t - inject_Z 1). rewrite Qceiling_shift.
  pose proof (Qceiling_gt_1 H). lia.
Qed.

(** ** The spawn loop *)

Section Engine.

Context {U : Utils} {M : CMath}.

Lemma same_config_refl (s : ParticleSystem) : same_config s s.
Proof. constructor; reflexivity. Qed.

Lemma same_config_trans (s1 s2 s3 : ParticleSystem) :
  same_config s1 s2 -> same_config s2 s3 -> same_config s1 s3.
Proof.
  intros [] []. constructor; congruence.
Qed.

Lemma createParticle_spec (s : ParticleSystem) :
  exists p g',
    createParticle s = set_rand_state g' (set_particles (m_particles s ++ [p]) s)
    /\ fresh_lifetime (m_lifetime_max s) p.
Proof.
  unfold createParticle.
  destruct (frand _ _ (rand_state s)) as [random g1].
  destruct (frand 0 (m_lifetime_max s) g1) as [sample g2] eqn:E2.
  destruct (rand2f (m_respawn_area s) g2) as [pt g3].
  destruct (frand 0 360 g3) as [rot g4].
  eexists; exists g4. split; [reflexivity|].
  exists g1. simpl. rewrite E2. reflexivity.
Qed.

Lemma createParticle_timer (s : ParticleSystem) :
  m_timer (createParticle s) = m_timer s.
Proof.
  destruct (createParticle_spec s) as (p & g' & -> & _). reflexivity.
Qed.

Lemma createParticle_config (s : ParticleSystem) :
  same_config s (createParticle s).
Proof.
  destruct (createParticle_spec s) as (p & g' & -> & _).
  constructor; reflexivity.
Qed.

(** With enough fuel the loop makes [drain_count] turns: it appends that many
    fresh particles, takes that many units off the accumulator and leaves it
    at most [1]. *)
Lemma drain_spec (fuel : nat) : forall s : ParticleSystem,
  (drain_count (m_timer s) <= fuel)%nat ->
  m_timer (drain fuel s)
    == m_timer s - inject_Z (Z.of_nat (drain_count (m_timer s)))
  /\ (m_timer s <= 1 -> drain fuel s = s)
  /\ m_timer (drain fuel s) <= Qmax 1 (m_timer s)
  /\ Qgt_bool (m_timer (drain fuel s)) 1 = false
  /\ same_config s (drain fuel s)
  /\ exists new,
       m_particles (drain fuel s) = m_particles s ++ new
       /\ length new = drain_count (m_timer s)
       /\ Forall (fresh_lifetime (m_lifetime_max s)) new.
Proof.
  induction fuel as [|fuel IH]; intros s Hfuel.
  - assert (Hc : drain_count (m_timer s) = O) by lia.
    assert (Hle : m_timer s <= 1).
    { destruct (Qlt_le_dec 1 (m_timer s)) as [Hgt|]; [|assumption].
      rewrite (drain_count_gt_1 Hgt) in Hc. discriminate. }
    simpl. rewrite Hc. simpl.
    split; [change (inject_Z 0) with 0; lra|].
    split; [reflexivity|].
    split; [apply Q.le_max_r|].
    split; [apply Qgt_bool_false; assumption|].
    split; [apply same_config_refl|].
    exists []. rewrite app_nil_r. repeat split. constructor.
  - simpl. destruct (Qgt_bool (m_timer s) 1) eqn:E.
    + apply Qgt_bool_true in E.
      rewrite (drain_count_gt_1 E) in *.
      set (s1 := createParticle (set_timer (m_timer s - 1) s)).
      assert (Ht1 : m_timer s1 = m_timer s - 1).
      { unfold s1. rewrite createParticle_timer. reflexivity. }
      assert (Hc1 : same_config s s1).
      { unfold s1.
        apply same_config_trans with (set_timer (m_timer s - 1) s).
        - constructor; reflexivity.
        - apply createParticle_config. }
      destruct (IH s1) as (Ha & _ & Hb & Hx & Hcfg & new & Hn & Hlen & Hall).
      { rewrite Ht1. lia. }
      rewrite Ht1 in *.
      split.
      { rewrite Ha. rewrite Nat2Z.inj_succ. unfold Z.succ.
        rewrite inject_Z_plus. change (inject_Z 1) with 1. lra. }
      split; [intros Hle; lra|].
      split.
      { eapply Qle_trans; [exact Hb|].
        apply Q.max_lub; [apply Q.le_max_l|].
        eapply Qle_trans; [|apply Q.le_max_r]. lra. }
      split; [exact Hx|].
      split; [eapply same_config_trans; eassumption|].
      destruct (createParticle_spec (set_timer (m_timer s - 1) s))
        as (p & g' & Hcp & Hfresh).
      exists (p :: new). split.
      { rewrite Hn. unfold s1. rewrite Hcp. simpl.
        rewrite <- app_assoc. reflexivity. }
      split; [simpl; congruence|].
      constructor; [exact Hfresh|].
      rewrite <- (cfg_lifetime_max Hc1). exact Hall.
    + apply Qgt_bool_false in E.
      rewrite (drain_count_le_1 E). simpl.
      split; [change (inject_Z 0) with 0; lra|].
      split; [reflexivity|].
      split; [apply Q.le_max_r|].
      split; [apply Qgt_bool_false; assumption|].
      split; [apply same_config_refl|].
      exists []. rewrite app_nil_r. repeat split. constructor.
Qed.

Lemma drain_fuel_enough (s : ParticleSystem) :
  (drain_count (m_timer s) <= drain_fuel s)%nat.
Proof. unfold drain_count, drain_fuel. lia. Qed.

(** The loop of [update] runs to its exit condition. *)
Lemma drain_exits (s : ParticleSystem) :
  Qgt_bool (m_timer (drain (drain_fuel s) s)) 1 = false.
Proof.
  destruct (drain_spec s (drain_fuel_enough s)) as (_ & _ & _ & H & _).
  exact H.
Qed.

(** The accumulator value the loop of [update dt] starts from. *)
Lemma emit_spec (dt : Q) (s : ParticleSystem) :
  let t0 := if m_is_emitted s then m_timer s + m_rate s * dt else m_timer s in
  m_timer (emit dt s) == t0 - inject_Z (Z.of_nat (drain_count t0))
  /\ m_timer (emit dt s) <= 1
  /\ same_config s (emit dt s)
  /\ spawned_by_update dt s = drain_count t0
  /\ exists new,
       m_particles (emit dt s) = m_particles s ++ new
       /\ length new = drain_count t0
       /\ Forall (fresh_lifetime (m_lifetime_max s)) new.
Proof.
  intros t0. unfold spawned_by_update, emit.
  set (s1 := if m_is_emitted s
             then set_timer (m_timer s + m_rate s * dt) s else s).
  assert (Ht : m_timer s1 = t0).
  { unfold s1, t0. destruct (m_is_emitted s); reflexivity. }
  assert (Hp : m_particles s1 = m_particles s).
  { unfold s1. destruct (m_is_emitted s); reflexivity. }
  assert (Hc : same_config s s1).
  { unfold s1. destruct (m_is_emitted s); constructor; reflexivity. }
  destruct (drain_spec s1 (drain_fuel_enough s1))
    as (Ha & _ & _ & Hx & Hcfg & new & Hn & Hlen & Hall).
  rewrite Ht in *. rewrite Hp in Hn.
  split; [exact Ha|].
  split; [apply Qgt_bool_false; exact Hx|].
  split; [eapply same_config_trans; eassumption|].
  split; [rewrite Hn, length_app; lia|].
  exists new. repeat split; try assumption.
  rewrite <- (cfg_lifetime_max Hc). exact Hall.
Qed.

(** An idle emitter whose accumulator is at most [1] is left alone by the
    first half of [update]. *)
Lemma emit_idle (dt : Q) (s : ParticleSystem) :
  m_is_emitted s = false -> m_timer s <= 1 -> emit dt s = s.
Proof.
  intros He Ht. unfold emit. rewrite He.
  destruct (drain_spec s (drain_fuel_enough s)) as (_ & H & _).
  apply H. exact Ht.
Qed.

Lemma update_timer (dt : Q) (s : ParticleSystem) :
  m_timer (update dt s) = m_timer (emit dt s).
Proof. reflexivity. Qed.

Lemma update_config (dt : Q) (s : ParticleSystem) :
  same_config s (update dt s).
Proof.
  destruct (emit_spec dt s) as (_ & _ & [] & _).
  unfold update. constructor; assumption.
Qed.

(** ** The particle loop *)

Lemma pass_spec (s : ParticleSystem) (dt : Q) (ps : list Particle) :
  pass s dt ps = map snd (filter fst (map (visit s dt) ps)).
Proof.
  induction ps as [|p rest IH]; [reflexivity|].
  simpl. destruct (visit s dt p) as [keep p'] eqn:E. simpl.
  destruct keep; simpl; rewrite IH; reflexivity.
Qed.

Lemma visit_keep (s : ParticleSystem) (dt : Q) (p : Particle) :
  fst (visit s dt p) = true <-> 0 < lifetime (controller p).
Proof.
  unfold visit.
  destruct (Qgt_bool (lifetime (controller p)) 0) eqn:E; simpl.
  - apply Qgt_bool_true in E. tauto.
  - apply Qgt_bool_false in E. split; [discriminate|lra].
Qed.

Lemma visit_lifetime (s : ParticleSystem) (dt : Q) (p : Particle) :
  0 < lifetime (controller p) ->
  lifetime (controller (snd (visit s dt p))) = lifetime (controller p) - dt.
Proof.
  intros H. apply Qgt_bool_true in H. unfold visit. rewrite H. reflexivity.
Qed.

(** ** The burst loop *)

Lemma explosion_particle_config (i : nat) (offset radius sample : Q)
      (s s' : ParticleSystem) :
  same_config s s' ->
  explosion_particle i offset radius sample s'
  = explosion_particle i offset radius sample s.
Proof.
  intros Hc. unfold explosion_particle.
  rewrite (cfg_emitter Hc), (cfg_velocity Hc), (cfg_instance Hc).
  reflexivity.
Qed.

Lemma explosion_body_spec (i : nat) (offset radius : Q) (s : ParticleSystem) :
  exists g g',
    explosion_body i offset radius s
    = set_rand_state g'
        (set_particles
           (m_particles s
              ++ [explosion_particle i offset radius
                    (fst (frand 0 (m_lifetime_max s) g)) s]) s).
Proof.
  unfold explosion_body.
  destruct (frand 0 (m_lifetime_max s) (rand_state s)) as [sample g1] eqn:E.
  exists (rand_state s), g1. rewrite E. reflexivity.
Qed.

Lemma explosion_loop_spec (offset radius : Q) (count : nat) :
  forall (i : nat) (s : ParticleSystem),
    m_timer (explosion_loop count i offset radius s) = m_timer s
    /\ same_config s (explosion_loop count i offset radius s)
    /\ exists new,
         m_particles (explosion_loop count i offset radius s)
         = m_particles s ++ new
         /\ length new = count
         /\ forall k, (k < count)%nat ->
              exists g,
                nth_error new k
                = Some (explosion_particle (i + k) offset radius
                          (fst (frand 0 (m_lifetime_max s) g)) s).
Proof.
  induction count as [|count IH]; intros i s.
  - simpl. split; [reflexivity|]. split; [apply same_config_refl|].
    exists []. rewrite app_nil_r. repeat split. intros k Hk. lia.
  - simpl.
    destruct (explosion_body_spec i offset radius s) as (g0 & g' & Hb).
    set (s1 := explosion_body i offset radius s) in *.
    assert (Hc1 : same_config s s1).
    { rewrite Hb. constructor; reflexivity. }
    assert (Ht1 : m_timer s1 = m_timer s) by (rewrite Hb; reflexivity).
    destruct (IH (S i) s1) as (Ht & Hc & new & Hn & Hlen & Hnth).
    split; [congruence|].
    split; [eapply same_config_trans; eassumption|].
    exists (explosion_particle i offset radius
              (fst (frand 0 (m_lifetime_max s) g0)) s :: new).
    split.
    { rewrite Hn. rewrite Hb. simpl. rewrite <- app_assoc. reflexivity. }
    split; [simpl; congruence|].
    intros [|k] Hk.
    + exists g0. rewrite Nat.add_0_r. reflexivity.
    + destruct (Hnth k) as (g & Hg); [lia|].
      exists g. simpl. rewrite Hg.
      rewrite (explosion_particle_config _ _ _ _ Hc1).
      rewrite (cfg_lifetime_max Hc1), Nat.add_succ_r. reflexivity.
Qed.

End Engine.

(** ** What holds in every reachable state *)

Section Reachable.

Context {U : Utils} {M : CMath}.

Lemma setExplosion_timer_config (n : nat) (radius : Q) (s : ParticleSystem) :
  m_timer (setExplosion n radius s) = m_timer s
  /\ m_rate (setExplosion n radius s) = m_rate s
  /\ m_lifetime_max (setExplosion n radius s) = m_lifetime_max s
  /\ m_velocity (setExplosion n radius s) = m_velocity s.
Proof.
  unfold setExplosion. destruct (m_particles s); [|repeat split].
  destruct (explosion_loop_spec (M_PI * 2 / inject_Z (Z.of_nat n)) radius n
              0 (setEmitted false s))
    as (Ht & Hc & _).
  split; [exact Ht|]. split; [exact (cfg_rate Hc)|].
  split; [exact (cfg_lifetime_max Hc) | exact (cfg_velocity Hc)].
Qed.

(** The accumulator never exceeds [1] and the magnitudes stored by the
    setters are never negative. *)
Lemma reachable_inv (s : ParticleSystem) :
  reachable s ->
  m_timer s <= 1 /\ 0 <= m_rate s /\ 0 <= m_lifetime_max s /\ 0 <= m_velocity s.
Proof.
  induction 1 as [g| | | | | | | v s _ IH | v s _ IH | | v s _ IH | | |
                  | n radius s _ IH | dt s _ IH];
    try (simpl; assumption).
  - simpl. repeat split; lra.
  - simpl. destruct IH as (? & ? & ? & ?).
    repeat split; try assumption. apply Qabs_nonneg.
  - simpl. destruct IH as (? & ? & ? & ?).
    repeat split; try assumption. apply Qabs_nonneg.
  - simpl. destruct IH as (? & ? & ? & ?).
    repeat split; try assumption. apply Qabs_nonneg.
  - destruct (setExplosion_timer_config n radius s) as (-> & -> & -> & ->).
    exact IH.
  - destruct (emit_spec dt s) as (_ & Ht & _).
    pose proof (update_config dt s) as Hc.
    rewrite update_timer, (cfg_velocity Hc), (cfg_lifetime_max Hc),
      (cfg_rate Hc).
    tauto.
Qed.

(** An idle emitter in a reachable state goes through [update] without
    touching the accumulator or spawning. *)
Lemma update_idle (dt : Q) (s : ParticleSystem) :
  reachable s -> m_is_emitted s = false ->
  emit dt s = s /\ m_timer (update dt s) = m_timer s
  /\ m_is_emitted (update dt s) = false
  /\ spawned_by_update dt s = O.
Proof.
  intros Hr He.
  assert (Hemit : emit dt s = s).
  { apply emit_idle; [exact He|]. apply reachable_inv. exact Hr. }
  split; [exact Hemit|].
  split; [rewrite update_timer, Hemit; reflexivity|].
  split.
  - rewrite (cfg_is_emitted (update_config dt s)). exact He.
  - unfold spawned_by_update. rewrite Hemit. lia.
Qed.

Lemma updates_idle (dts : list Q) : forall s : ParticleSystem,
  reachable s -> m_is_emitted s = false ->
  reachable (updates dts s)
  /\ m_timer (updates dts s) = m_timer s
  /\ m_is_emitted (updates dts s) = false
  /\ m_rate (updates dts s) = m_rate s
  /\ spawned_by_updates dts s = O.
Proof.
  induction dts as [|dt rest IH]; intros s Hr He.
  - simpl. repeat split; assumption.
  - simpl.
    destruct (update_idle dt Hr He) as (_ & Ht & He' & Hs).
    destruct (IH (update dt s)) as (Hr2 & Ht2 & He2 & Hrate & Hs2);
      [apply reach_update; exact Hr | exact He' |].
    pose proof (cfg_rate (update_config dt s)) as Hrt.
    repeat split; try assumption; try congruence. lia.
Qed.

Lemma total_time_nonneg (dts : list Q) :
  Forall (fun dt => 0 <= dt) dts -> 0 <= total_time dts.
Proof.
  induction 1 as [|dt rest Hdt _ IH]; simpl; lra.
Qed.

(** The spawn count of a run of [update] calls, in closed form. *)
Lemma spawned_by_updates_closed_form (dts : list Q) :
  forall s : ParticleSystem,
    m_is_emitted s = true ->
    0 <= m_rate s ->
    Forall (fun dt => 0 <= dt) dts ->
    m_timer s <= 1 ->
    spawned_by_updates dts s
    = Z.to_nat (Qceiling (m_rate s * total_time dts + m_timer s) - 1).
Proof.
  induction dts as [|dt rest IH]; intros s He Hrate Hdts Ht.
  - simpl.
    assert (E : m_rate s * 0 + m_timer s == m_timer s) by ring.
    rewrite (Qceiling_comp _ _ E).
    pose proof (Qceiling_le_1 Ht). lia.
  - inversion Hdts as [|? ? Hdt Hrest]; subst.
    simpl.
    destruct (emit_spec dt s) as (Hta & Htb & Hc & Hsp & _).
    rewrite He in Hta, Hsp.
    pose proof (cfg_rate (update_config dt s)) as Hr'.
    pose proof (cfg_is_emitted (update_config dt s)) as He'.
    rewrite (IH (update dt s));
      [| congruence | rewrite Hr'; exact Hrate | exact Hrest
       | rewrite update_timer; exact Htb].
    rewrite Hsp, Hr', update_timer.
    set (t0 := m_timer s + m_rate s * dt) in *.
    pose proof (total_time_nonneg Hrest) as HT.
    assert (HrT : 0 <= m_rate s * total_time rest)
      by (apply Qmult_le_0_compat; assumption).
    assert (E1 : m_rate s * total_time rest + m_timer (emit dt s)
                 == (m_rate s * (dt + total_time rest) + m_timer s)
                    - inject_Z (Z.of_nat (drain_count t0))).
    { rewrite Hta. unfold t0. ring. }
    rewrite (Qceiling_comp _ _ E1), Qceiling_shift.
    assert (Hmono : (Qceiling t0
                     <= Qceiling (m_rate s * (dt + total_time rest)
                                  + m_timer s))%Z).
    { apply Qceiling_resp_le. unfold t0.
      assert (E2 : m_rate s * (dt + total_time rest) + m_timer s
                   == m_timer s + m_rate s * dt + m_rate s * total_time rest)
        by ring.
      rewrite E2. lra. }
    unfold drain_count in *. lia.
Qed.

(** C1, amended: in continuous mode, from an accumulator [timer0 <= 1] and
    with [dt >= 0] in every call, on a run in which no operation on the
    accumulator rounds, the number of particles spawned over a sequence of
    [update] calls of total duration [T] is
    [max(0, ceil(respawnRate * T + timer0) - 1)]; two such sequences with
    the same total duration spawn the same number of particles. *)
Theorem C1_spawned_over_window (dts dts' : list Q) (s : ParticleSystem) :
  m_is_emitted s = true ->
  0 <= m_rate s ->
  m_timer s <= 1 ->
  Forall (fun dt => 0 <= dt) dts ->
  Forall (fun dt => 0 <= dt) dts' ->
  total_time dts' == total_time dts ->
  run_exact dts s ->
  run_exact dts' s ->
  spawned_by_updates dts s
  = Z.to_nat (Qceiling (m_rate s * total_time dts + m_timer s) - 1)
  /\ spawned_by_updates dts' s = spawned_by_updates dts s.
Proof.
  intros He Hrate Ht Hdts Hdts' Hsame _ _.
  rewrite (spawned_by_updates_closed_form s He Hrate Hdts Ht).
  rewrite (spawned_by_updates_closed_form s He Hrate Hdts' Ht).
  split; [reflexivity|].
  assert (E : m_rate s * total_time dts' + m_timer s
              == m_rate s * total_time dts + m_timer s)
    by (rewrite Hsame; reflexivity).
  rewrite (Qceiling_comp _ _ E). reflexivity.
Qed.

(** C9: while [isEmitted] is false, [update] neither advances the accumulator
    nor spawns; the accumulated fraction is kept through any number of such
    calls and through the toggle.  Once emission is re-enabled it counts
    again: the next [update(dt)], when its accumulator operations do not
    round, spawns [max(0, ceil(timer + respawnRate * dt) - 1)] particles from
    the retained [timer] and leaves [timer + respawnRate * dt] minus that
    number in the accumulator. *)
Theorem C9_idle_accumulator_retained (s : ParticleSystem) :
  reachable s ->
  m_is_emitted s = false ->
  (forall dt,
      m_timer (update dt s) = m_timer s /\ spawned_by_update dt s = O)
  /\ (forall dts e,
        m_timer (setEmitted e (updates dts s)) = m_timer s
        /\ spawned_by_updates dts s = O)
  /\ (forall dts dt,
        update_exact dt (setEmitted true (updates dts s)) ->
        spawned_by_update dt (setEmitted true (updates dts s))
        = Z.to_nat (Qceiling (m_timer s + m_rate s * dt) - 1)
        /\ m_timer (update dt (setEmitted true (updates dts s)))
           == m_timer s + m_rate s * dt
              - inject_Z
                  (Z.of_nat
                     (spawned_by_update dt
                        (setEmitted true (updates dts s))))).
Proof.
  intros Hr He. split; [|split].
  - intros dt. destruct (update_idle dt Hr He) as (_ & Ht & _ & Hs).
    split; assumption.
  - intros dts e.
    destruct (updates_idle dts Hr He) as (_ & Ht & _ & _ & Hs).
    split; [simpl; exact Ht | exact Hs].
  - intros dts dt _.
    destruct (updates_idle dts Hr He) as (_ & Ht & _ & Hrate & _).
    destruct (emit_spec dt (setEmitted true (updates dts s)))
      as (Hta & _ & _ & Hsp & _).
    simpl in Hsp, Hta. rewrite update_timer, Hta, Hsp, Ht, Hrate.
    split; reflexivity.
Qed.

(** C10: the accumulator starts at [0]; in every reachable state it is at
    most [1], and it is at most [1] at the end of every [update] call; hence
    the loop at the top of [update] spawns nothing in a call made while
    [isEmitted] is false. *)
Theorem C10_accumulator_bounded (s : ParticleSystem) :
  reachable s ->
  (forall g, m_timer (ParticleSystem_new g) = 0)
  /\ m_timer s <= 1
  /\ (forall dt, m_timer (update dt s) <= 1)
  /\ (forall dt, m_is_emitted s = false ->
        drain (drain_fuel s) s = s /\ spawned_by_update dt s = O).
Proof.
  intros Hr. split; [reflexivity|].
  split; [apply reachable_inv; exact Hr|].
  split.
  - intros dt. apply (reachable_inv (reach_update dt Hr)).
  - intros dt He. destruct (update_idle dt Hr He) as (Hemit & _ & _ & Hs).
    split; [|exact Hs].
    unfold emit in Hemit. rewrite He in Hemit. exact Hemit.
Qed.

End Reachable.

(** ** Conversion to [sf::Uint8] *)

Lemma Qtruncate_nonneg (x : Q) : 0 <= x -> Qtruncate x = Qfloor x.
Proof.
  destruct x as [n d]. unfold Qle, Qtruncate, Qfloor. simpl.
  intros H. apply Z.quot_div_nonneg; lia.
Qed.

Lemma Qtruncate_comp_nonneg (x y : Q) :
  0 <= x -> x == y -> Qtruncate x = Qtruncate y.
Proof.
  intros Hx E. rewrite !Qtruncate_nonneg; [| rewrite <- E; exact Hx | exact Hx].
  apply Qfloor_comp. exact E.
Qed.

Lemma static_cast_Uint8_in_range (x : Q) :
  0 <= x -> x < 256 -> static_cast_Uint8 x = Some (Qtruncate x).
Proof.
  intros H0 H256. unfold static_cast_Uint8.
  rewrite (Qtruncate_nonneg H0).
  assert (A : (0 <= Qfloor x)%Z).
  { change 0%Z with (Qfloor 0). apply Qfloor_resp_le. exact H0. }
  assert (B : (Qfloor x < 256)%Z).
  { pose proof (Qfloor_le x) as Hf.
    assert (C : inject_Z (Qfloor x) < inject_Z 256).
    { change (inject_Z 256) with 256. lra. }
    rewrite <- Zlt_Qlt in C. exact C. }
  destruct (0 <=? Qfloor x)%Z eqn:E1; [|lia].
  destruct (Qfloor x <=? 255)%Z eqn:E2; [reflexivity|lia].
Qed.

(** ** Ageing and retirement *)

Section Ageing.

Context {U : Utils} {M : CMath}.

Lemma update_particles_In (dt : Q) (s : ParticleSystem) (q : Particle) :
  In q (m_particles (update dt s)) <->
  exists p, In p (m_particles (emit dt s))
            /\ 0 < lifetime (controller p)
            /\ q = snd (visit (emit dt s) dt p).
Proof.
  unfold update. simpl. rewrite pass_spec, in_map_iff. split.
  - intros ([k p'] & Hq & Hin). apply filter_In in Hin.
    destruct Hin as (Hin & Hk). apply in_map_iff in Hin.
    destruct Hin as (p & Hv & Hp). exists p.
    split; [exact Hp|]. split.
    + apply (visit_keep (emit dt s) dt p). rewrite Hv. exact Hk.
    + rewrite Hv. symmetry. exact Hq.
  - intros (p & Hp & Hl & ->). exists (visit (emit dt s) dt p).
    split; [reflexivity|]. apply filter_In. split.
    + apply in_map. exact Hp.
    + apply visit_keep. exact Hl.
Qed.

(** C2: a particle that passes the lifetime check leaves the turn of the loop
    with its previous lifetime minus [dt]; an entry stays in the collection
    exactly when the lifetime read at the start of the turn is strictly
    positive.  The collection after [update] is thus made of the aged images
    of the entries (old ones and those spawned in this call) whose lifetime
    was positive, in order.  Nothing is stated of the lifetime of an erased
    particle: the source decrements it after the particle has been
    destroyed. *)
Theorem C2_lifetime_decrement_and_presence (dt : Q) (s : ParticleSystem) :
  (forall cfg p,
      0 < lifetime (controller p) ->
      lifetime (controller (snd (visit cfg dt p)))
      = lifetime (controller p) - dt)
  /\ (forall cfg p,
        fst (visit cfg dt p) = true <-> 0 < lifetime (controller p))
  /\ (exists new, m_particles (emit dt s) = m_particles s ++ new)
  /\ m_particles (update dt s)
     = map snd (filter fst (map (visit (emit dt s) dt)
                                (m_particles (emit dt s))))
  /\ (forall q,
        In q (m_particles (update dt s)) <->
        exists p, In p (m_particles (emit dt s))
                  /\ 0 < lifetime (controller p)
                  /\ q = snd (visit (emit dt s) dt p)).
Proof.
  split; [intros cfg p Hp; apply visit_lifetime; exact Hp|].
  split; [intros cfg p; apply visit_keep|].
  split.
  { destruct (emit_spec dt s) as (_ & _ & _ & _ & new & Hn & _).
    exists new. exact Hn. }
  split; [unfold update; simpl; apply pass_spec|].
  intros q. apply update_particles_In.
Qed.

(** C3, amended: a particle kept by [update(dt)] with [dt >= 0] leaves the
    call with the lifetime [lifetime - dt], which is never above the lifetime
    it had.  A particle is erased by the first [update] that starts with its
    lifetime at or below zero: the step in which the lifetime crosses to
    [<= 0] still keeps the particle, and the following step removes it. *)
Theorem C3_retirement_is_one_step_late
        (dt : Q) (s : ParticleSystem) (p : Particle) :
  0 <= dt ->
  In p (m_particles (emit dt s)) ->
  let q := snd (visit (emit dt s) dt p) in
  (0 < lifetime (controller p) ->
   lifetime (controller q) = lifetime (controller p) - dt
   /\ lifetime (controller q) <= lifetime (controller p)
   /\ In q (m_particles (update dt s)))
  /\ (lifetime (controller p) <= 0 ->
      fst (visit (emit dt s) dt p) = false
      /\ pass (emit dt s) dt [p] = [])
  /\ (0 < lifetime (controller p) ->
      lifetime (controller p) <= dt ->
      lifetime (controller q) <= 0
      /\ In q (m_particles (update dt s))
      /\ forall cfg dt', pass cfg dt' [q] = []).
Proof.
  intros Hdt Hin q.
  assert (Hdead : forall cfg dt' r,
             lifetime (controller r) <= 0 ->
             fst (visit cfg dt' r) = false /\ pass cfg dt' [r] = []).
  { intros cfg dt' r Hle.
    assert (Hf : fst (visit cfg dt' r) = false).
    { destruct (fst (visit cfg dt' r)) eqn:E; [|reflexivity].
      apply visit_keep in E. lra. }
    split; [exact Hf|]. simpl.
    destruct (visit cfg dt' r) as [k r']. simpl in Hf. subst k.
    reflexivity. }
  assert (Hkept : 0 < lifetime (controller p) ->
                  lifetime (controller q) = lifetime (controller p) - dt
                  /\ In q (m_particles (update dt s))).
  { intros Hpos. split; [apply visit_lifetime; exact Hpos|].
    apply update_particles_In. exists p. repeat split; assumption. }
  split; [|split].
  - intros Hpos. destruct (Hkept Hpos) as (Hq & Hq').
    split; [exact Hq|]. split; [rewrite Hq; lra | exact Hq'].
  - intros Hle. apply Hdead. exact Hle.
  - intros Hpos Hcross. destruct (Hkept Hpos) as (Hq & Hq').
    assert (Hq0 : lifetime (controller q) <= 0) by (rewrite Hq; lra).
    split; [exact Hq0|]. split; [exact Hq'|].
    intros cfg dt'. apply Hdead. exact Hq0.
Qed.

Lemma static_cast_Uint8_out_of_range (x : Q) :
  256 <= x -> static_cast_Uint8 x = None.
Proof.
  intros H. unfold static_cast_Uint8.
  rewrite Qtruncate_nonneg by lra.
  assert (A : (256 <= Qfloor x)%Z).
  { change 256%Z with (Qfloor 256). apply Qfloor_resp_le. exact H. }
  destruct (Qfloor x <=? 255)%Z eqn:E; [lia|].
  rewrite andb_false_r. reflexivity.
Qed.

(** C5: a particle whose lifetime check passes is kept, its position advances
    by [velocity * dt] and its scale is multiplied by [exponentialGrowth];
    without [isAttenuated] its colour is untouched.  With [isAttenuated] and
    a lifetime of at least twice [lifetimeMax], the product [ratio * 255] is
    at least 510 and its conversion to [sf::Uint8] is out of range: the
    source applies no clamp and the alpha has no defined value, where
    [clamp(lifetime / lifetimeMax, 0, 1) * 255] is 255. *)
Theorem C5_visit_of_live_particle
        (dt : Q) (s : ParticleSystem) (p : Particle) :
  0 < lifetime (controller p) ->
  let q := snd (visit s dt p) in
  let ratio := lifetime (controller p) / m_lifetime_max s in
  fst (visit s dt p) = true
  /\ sf.position (sprite q)
     = sf.vadd (sf.position (sprite p)) (sf.vscale (velocity (controller p)) dt)
  /\ sf.scale_ (sprite q)
     = sf.mkVector2f
         (sf.x (sf.scale_ (sprite p)) * sf.x (m_exponential_growth s))
         (sf.y (sf.scale_ (sprite p)) * sf.y (m_exponential_growth s))
  /\ (m_is_attenuated s = false -> sf.color (sprite q) = sf.color (sprite p))
  /\ (m_is_attenuated s = true ->
      0 < m_lifetime_max s ->
      2 * m_lifetime_max s <= lifetime (controller p) ->
      sf.a (sf.color (sprite q)) = None
      /\ Qtruncate (clamp ratio 0 1 * 255) = 255%Z).
Proof.
  intros Hpos q ratio.
  assert (Hk : Qgt_bool (lifetime (controller p)) 0 = true)
    by (apply Qgt_bool_true; exact Hpos).
  split; [unfold visit; rewrite Hk; reflexivity|].
  split; [unfold q, visit; rewrite Hk; destruct (m_is_attenuated s);
          reflexivity|].
  split; [unfold q, visit; rewrite Hk; destruct (m_is_attenuated s);
          reflexivity|].
  split.
  { intros Ha. unfold q, visit. rewrite Hk, Ha. reflexivity. }
  intros Ha Hmax Htwice.
  assert (Hratio : 2 <= ratio).
  { unfold ratio. apply Qle_shift_div_l; [exact Hmax|]. lra. }
  split.
  - unfold q, visit. rewrite Hk, Ha. simpl. unfold fdiv.
    destruct (Qeq_bool (m_lifetime_max s) 0) eqn:E.
    { apply Qeq_bool_iff in E. lra. }
    simpl. apply static_cast_Uint8_out_of_range. fold ratio. lra.
  - assert (E : clamp ratio 0 1 * 255 == 255).
    { unfold clamp. rewrite (Q.min_l 1 ratio) by lra.
      rewrite (Q.max_r 0 1) by lra. reflexivity. }
    rewrite (Qtruncate_comp_nonneg (x := clamp ratio 0 1 * 255) (y := 255));
      [reflexivity | lra | exact E].
Qed.

End Ageing.

(** ** Bursts and initial lifetimes *)

Section Burst.

Context {U : Utils} {M : CMath}.


(** C6: [setExplosion] called while the collection holds a particle returns
    the engine as it was: particles, flags, accumulator and every other
    member. *)
Theorem C6_burst_on_live_collection (n : nat) (radius : Q)
        (s : ParticleSystem) :
  m_particles s <> [] -> setExplosion n radius s = s.
Proof.
  intros Hne. unfold setExplosion.
  destruct (m_particles s); [contradiction|reflexivity].
Qed.

(** C7, amended: [setExplosion(0, r)] spawns no particle and changes no member
    other than [isEmitted], which it sets to false when the collection is
    empty; on a non-empty collection it changes nothing.  No guard is
    involved: the offset is computed and never read. *)
Theorem C7_burst_of_zero (radius : Q) (s : ParticleSystem) :
  m_particles (setExplosion 0 radius s) = m_particles s
  /\ setExplosion 0 radius s
     = match m_particles s with
       | [] => setEmitted false s
       | _ :: _ => s
       end
  /\ m_timer (setExplosion 0 radius s) = m_timer s
  /\ rand_state (setExplosion 0 radius s) = rand_state s.
Proof.
  unfold setExplosion. destruct (m_particles s) eqn:E; simpl;
    repeat split; assumption.
Qed.

Lemma fresh_lifetime_ok (lmax : Q) (p : Particle) :
  frand_in_range U -> 0 <= lmax ->
  fresh_lifetime lmax p -> spawn_lifetime_ok lmax p.
Proof.
  intros Hrange Hmax Hf. split; [exact Hf|].
  destruct Hf as (g & ->).
  destruct (Hrange 0 lmax g Hmax) as (Hlo & Hhi).
  split; [lra|]. split; [lra|].
  intros Hz. lra.
Qed.

(** C8: a particle created by continuous emission or by a burst starts with
    lifetime [frand(0, lifetimeMax) + 1.0]; as [frand] stays within its
    bounds this is between [1.0] and [lifetimeMax + 1.0], and exactly [1.0]
    when [lifetimeMax] is [0]. *)
Theorem C8_initial_lifetime (s : ParticleSystem) :
  frand_in_range U ->
  0 <= m_lifetime_max s ->
  (exists p g',
      createParticle s
      = set_rand_state g' (set_particles (m_particles s ++ [p]) s)
      /\ spawn_lifetime_ok (m_lifetime_max s) p)
  /\ (forall dt, exists new,
         m_particles (emit dt s) = m_particles s ++ new
         /\ Forall (spawn_lifetime_ok (m_lifetime_max s)) new)
  /\ (forall n radius,
         m_particles s = [] ->
         length (m_particles (setExplosion n radius s)) = n
         /\ Forall (spawn_lifetime_ok (m_lifetime_max s))
                   (m_particles (setExplosion n radius s))).
Proof.
  intros Hrange Hmax. split; [|split].
  - destruct (createParticle_spec s) as (p & g' & Hc & Hf).
    exists p, g'. split; [exact Hc|].
    apply fresh_lifetime_ok; assumption.
  - intros dt.
    destruct (emit_spec dt s) as (_ & _ & _ & _ & new & Hn & _ & Hall).
    exists new. split; [exact Hn|].
    eapply Forall_impl; [|exact Hall].
    intros p Hp. apply fresh_lifetime_ok; assumption.
  - intros n radius Hempty. unfold setExplosion. rewrite Hempty.
    destruct (explosion_loop_spec (M_PI * 2 / inject_Z (Z.of_nat n)) radius n
                0 (setEmitted false s))
      as (_ & _ & new & Hn & Hlen & Hnth).
    simpl in Hn. rewrite Hempty in Hn. simpl in Hn. rewrite Hn.
    split; [exact Hlen|].
    apply Forall_forall. intros p Hp.
    apply In_nth_error in Hp. destruct Hp as (k & Hk).
    assert (Hlt : (k < n)%nat).
    { rewrite <- Hlen. apply nth_error_Some. congruence. }
    destruct (Hnth k Hlt) as (g & Hg). simpl in Hg.
    rewrite Hk in Hg. injection Hg as ->.
    apply fresh_lifetime_ok; [assumption|assumption|].
    exists g. reflexivity.
Qed.

End Burst.

(** ** Closed examples *)

Lemma accumulator_exact_intro (t : Q) (n : nat) :
  drain_count t = n ->
  Forall binary32 (map (fun k => t - inject_Z (Z.of_nat k)) (seq 0 (S n))) ->
  accumulator_exact t.
Proof.
  intros Hn Hall k Hk. rewrite Hn in Hk.
  rewrite Forall_forall in Hall. apply Hall.
  apply in_map_iff. exists k. split; [reflexivity|].
  apply in_seq. lia.
Qed.

(** [binary32_at e] shows a closed rational to be [m * 2^e] for a 24-bit
    [m]; [binary32_small] tries the exponents of small dyadic numbers. *)
Ltac binary32_at e :=
  match goal with
  | |- binary32 ?q =>
      exists (Qnum (Qred (q * 2 ^ (- e)))), e;
      split;
      [ vm_compute; reflexivity
      | split; [ split; vm_compute; discriminate | vm_compute; reflexivity ] ]
  end.

Ltac binary32_small :=
  first [ binary32_at 0%Z | binary32_at (-1)%Z | binary32_at (-2)%Z
        | binary32_at (-3)%Z | binary32_at (-4)%Z ].

Ltac accumulator_exact_by n :=
  apply (@accumulator_exact_intro _ n);
  [ vm_compute; reflexivity
  | cbn [map seq];
    repeat (apply Forall_cons; [ binary32_small | ]); apply Forall_nil ].

Ltac update_exact_by n :=
  split;
  [ binary32_small
  | split;
    [ intros _; split; [ binary32_small | split; binary32_small ]
    | accumulator_exact_by n ] ].

(** The tape generator honours the contract of [uniform(lo, hi)]. *)
Lemma tape_frand_in_range : frand_in_range TapeUtils.
Proof.
  intros lo hi g Hle. simpl. unfold tape_frand, tape_next.
  assert (Hu : forall u, 0 <= u -> u <= 1 ->
                 lo <= Qred (lo + u * (hi - lo))
                 /\ Qred (lo + u * (hi - lo)) <= hi).
  { intros u H0 H1. rewrite Qred_correct.
    assert (A : 0 <= u * (hi - lo)) by (apply Qmult_le_0_compat; lra).
    assert (B : 0 <= (1 - u) * (hi - lo)) by (apply Qmult_le_0_compat; lra).
    assert (E : (1 - u) * (hi - lo) == (hi - lo) - u * (hi - lo)) by ring.
    rewrite E in B. split; lra. }
  destruct g as [|u g']; lazy beta iota delta [fst].
  - apply Hu; lra.
  - apply Hu.
    + apply Q.le_max_l.
    + apply Q.max_lub; [lra|]. apply Q.le_min_l.
Qed.

(** No accumulator operation rounds in the three half steps of
    [steady_emitter]. *)
Lemma steady_run_exact : run_exact [1 # 2; 1 # 2; 1 # 2] steady_emitter.
Proof.
  cbn [run_exact].
  split; [update_exact_by 0%nat|].
  split; [update_exact_by 1%nat|].
  split; [update_exact_by 1%nat | exact I].
Qed.

(** C1 as stated fails: with [respawnRate = 2] and emission on, three
    [update(0.5)] calls spawn 2 particles, where
    [floor(respawnRate * T + timer0)] is 3.  The accumulator reaches exactly
    [1.0] in the first call and the loop asks for [timer > 1.0]. *)
Lemma C1_three_half_steps_spawn_two :
  spawned_by_updates [1 # 2; 1 # 2; 1 # 2] steady_emitter = 2%nat
  /\ Qfloor (m_rate steady_emitter * total_time [1 # 2; 1 # 2; 1 # 2]
             + m_timer steady_emitter) = 3%Z
  /\ spawned_by_updates [1 # 2; 1 # 2; 1 # 2] steady_emitter
     <> Z.to_nat (Qfloor (m_rate steady_emitter
                          * total_time [1 # 2; 1 # 2; 1 # 2]
                          + m_timer steady_emitter)).
Proof.
  split; [vm_compute; reflexivity|].
  split; [vm_compute; reflexivity|].
  vm_compute. discriminate.
Qed.

(** The scenario of C1 against one [update(1.5)]: both runs are exact and
    both spawn [ceil(2 * 1.5 + 0) - 1 = 2] particles. *)
Lemma C1_spawned_over_window_witness :
  m_is_emitted steady_emitter = true
  /\ 0 <= m_rate steady_emitter
  /\ m_timer steady_emitter <= 1
  /\ Forall (fun dt => 0 <= dt) [1 # 2; 1 # 2; 1 # 2]
  /\ Forall (fun dt => 0 <= dt) [3 # 2]
  /\ total_time [3 # 2] == total_time [1 # 2; 1 # 2; 1 # 2]
  /\ run_exact [1 # 2; 1 # 2; 1 # 2] steady_emitter
  /\ run_exact [3 # 2] steady_emitter
  /\ spawned_by_updates [1 # 2; 1 # 2; 1 # 2] steady_emitter
     = Z.to_nat (Qceiling (m_rate steady_emitter
                           * total_time [1 # 2; 1 # 2; 1 # 2]
                           + m_timer steady_emitter) - 1)
  /\ spawned_by_updates [3 # 2] steady_emitter
     = spawned_by_updates [1 # 2; 1 # 2; 1 # 2] steady_emitter.
Proof.
  assert (He : m_is_emitted steady_emitter = true) by reflexivity.
  assert (Hr : 0 <= m_rate steady_emitter) by (vm_compute; discriminate).
  assert (Ht : m_timer steady_emitter <= 1) by (vm_compute; discriminate).
  assert (Hd : Forall (fun dt => 0 <= dt) [1 # 2; 1 # 2; 1 # 2])
    by (repeat constructor; vm_compute; discriminate).
  assert (Hd' : Forall (fun dt => 0 <= dt) [3 # 2])
    by (repeat constructor; vm_compute; discriminate).
  assert (Hsame : total_time [3 # 2] == total_time [1 # 2; 1 # 2; 1 # 2])
    by (vm_compute; reflexivity).
  assert (Hex : run_exact [1 # 2; 1 # 2; 1 # 2] steady_emitter)
    by exact steady_run_exact.
  assert (Hex' : run_exact [3 # 2] steady_emitter).
  { cbn [run_exact]. split; [update_exact_by 2%nat | exact I]. }
  split; [exact He|]. split; [exact Hr|]. split; [exact Ht|].
  split; [exact Hd|]. split; [exact Hd'|]. split; [exact Hsame|].
  split; [exact Hex|]. split; [exact Hex'|].
  exact (@C1_spawned_over_window TapeUtils PolyCMath
           [1 # 2; 1 # 2; 1 # 2] [3 # 2] steady_emitter
           He Hr Ht Hd Hd' Hsame Hex Hex').
Defined.

(** C3 as stated fails: the particle of [one_spark] has lifetime 1;
    [update(2)] takes it to -1 and keeps it in the collection; only the next
    [update] erases it. *)
Lemma C3_spark_survives_its_crossing :
  lifetimes (m_particles one_spark) = [1]
  /\ lifetimes (m_particles (update 2 one_spark)) = [-1]
  /\ m_particles (update 2 one_spark) <> []
  /\ m_particles (update 1 (update 2 one_spark)) = [].
Proof.
  split; [vm_compute; reflexivity|].
  split; [vm_compute; reflexivity|].
  split; [vm_compute; discriminate|].
  vm_compute. reflexivity.
Qed.

(** The particle of [one_spark] (lifetime 1) under [update(2)]: kept with
    lifetime -1, dropped by the next turn of the loop. *)
Lemma C3_retirement_is_one_step_late_witness :
  0 <= 2
  /\ In spark (m_particles (emit 2 one_spark))
  /\ 0 < lifetime (controller spark)
  /\ lifetime (controller spark) <= 2
  /\ lifetime (controller (snd (visit (emit 2 one_spark) 2 spark)))
     <= lifetime (controller spark)
  /\ lifetime (controller (snd (visit (emit 2 one_spark) 2 spark))) <= 0
  /\ In (snd (visit (emit 2 one_spark) 2 spark))
        (m_particles (update 2 one_spark))
  /\ pass one_spark 1 [snd (visit (emit 2 one_spark) 2 spark)] = [].
Proof.
  assert (Hdt : 0 <= 2) by (vm_compute; discriminate).
  assert (Hin : In spark (m_particles (emit 2 one_spark)))
    by (left; vm_compute; reflexivity).
  assert (Hpos : 0 < lifetime (controller spark))
    by (vm_compute; reflexivity).
  assert (Hle : lifetime (controller spark) <= 2)
    by (vm_compute; discriminate).
  split; [exact Hdt|]. split; [exact Hin|]. split; [exact Hpos|].
  split; [exact Hle|].
  destruct (@C3_retirement_is_one_step_late TapeUtils PolyCMath
              2 one_spark spark Hdt Hin)
    as (Hkept & _ & Hcross).
  destruct (Hkept Hpos) as (_ & Hmono & _).
  destruct (Hcross Hpos Hle) as (H0 & Hin' & Hnext).
  split; [exact Hmono|]. split; [exact H0|]. split; [exact Hin'|].
  apply Hnext.
Defined.


(** C5 at the failing input: the particle of [fading_spark] has lifetime 1
    with [lifetimeMax = 0.5], so [ratio * 255] is 510.  The claim asks for
    alpha [clamp(2, 0, 1) * 255 = 255]; the source converts 510 to
    [sf::Uint8] without clamping, which has no defined value. *)
Lemma C5_alpha_is_not_clamped :
  m_is_attenuated fading_spark = true
  /\ Qred (m_lifetime_max fading_spark) = 1 # 2
  /\ lifetimes (m_particles fading_spark) = [1]
  /\ Qtruncate (clamp (1 / (1 # 2)) 0 1 * 255) = 255%Z
  /\ alphas (m_particles (update (1 # 4) fading_spark)) = [None]
  /\ alphas (m_particles (update (1 # 4) fading_spark))
     <> [Some (Qtruncate (clamp (1 / (1 # 2)) 0 1 * 255))].
Proof.
  split; [reflexivity|].
  split; [vm_compute; reflexivity|].
  split; [vm_compute; reflexivity|].
  split; [vm_compute; reflexivity|].
  split; [vm_compute; reflexivity|].
  vm_compute. discriminate.
Qed.

(** A particle of lifetime 1 under the configuration of [fading_spark],
    whose [lifetimeMax] is 0.5. *)
Lemma C5_visit_of_live_particle_witness :
  0 < lifetime (controller nearly_faded)
  /\ m_is_attenuated fading_spark = true
  /\ 0 < m_lifetime_max fading_spark
  /\ 2 * m_lifetime_max fading_spark <= lifetime (controller nearly_faded)
  /\ fst (visit fading_spark (1 # 4) nearly_faded) = true
  /\ sf.position (sprite (snd (visit fading_spark (1 # 4) nearly_faded)))
     = sf.vadd (sf.position (sprite nearly_faded))
               (sf.vscale (velocity (controller nearly_faded)) (1 # 4))
  /\ sf.a (sf.color (sprite (snd (visit fading_spark (1 # 4) nearly_faded))))
     = None
  /\ Qtruncate
       (clamp (lifetime (controller nearly_faded)
               / m_lifetime_max fading_spark) 0 1 * 255) = 255%Z.
Proof.
  assert (Hpos : 0 < lifetime (controller nearly_faded))
    by (vm_compute; reflexivity).
  assert (Ha : m_is_attenuated fading_spark = true) by reflexivity.
  assert (Hmax : 0 < m_lifetime_max fading_spark)
    by (vm_compute; reflexivity).
  assert (Htwice : 2 * m_lifetime_max fading_spark
                   <= lifetime (controller nearly_faded))
    by (vm_compute; discriminate).
  split; [exact Hpos|]. split; [exact Ha|]. split; [exact Hmax|].
  split; [exact Htwice|].
  destruct (@C5_visit_of_live_particle TapeUtils (1 # 4)
              fading_spark nearly_faded Hpos)
    as (Hk & Hmove & _ & _ & Halpha).
  destruct (Halpha Ha Hmax Htwice) as (Hnone & Hclaim).
  split; [exact Hk|]. split; [exact Hmove|].
  split; [exact Hnone | exact Hclaim].
Defined.

(** A second burst while the particle of [one_spark] is alive. *)
Lemma C6_burst_on_live_collection_witness :
  m_particles one_spark <> []
  /\ setExplosion 3 1 one_spark = one_spark.
Proof.
  assert (Hne : m_particles one_spark <> [])
    by (vm_compute; discriminate).
  split; [exact Hne|].
  exact (@C6_burst_on_live_collection TapeUtils PolyCMath 3 1 one_spark Hne).
Defined.

(** C7 as stated fails: on an emitting engine with no particle,
    [setExplosion(0, 1)] is not a no-op, it switches emission off. *)
Lemma C7_burst_of_zero_stops_emission :
  m_particles steady_emitter = []
  /\ m_is_emitted steady_emitter = true
  /\ m_is_emitted (setExplosion 0 1 steady_emitter) = false
  /\ setExplosion 0 1 steady_emitter <> steady_emitter.
Proof.
  split; [reflexivity|]. split; [reflexivity|]. split; [reflexivity|].
  intros H. apply (f_equal m_is_emitted) in H. discriminate H.
Qed.

(** A burst of three on a fresh engine, whose [lifetimeMax] is 0. *)
Lemma C8_initial_lifetime_witness :
  frand_in_range TapeUtils
  /\ 0 <= m_lifetime_max engine0
  /\ length (m_particles (setExplosion 3 1 engine0)) = 3%nat
  /\ Forall (spawn_lifetime_ok (m_lifetime_max engine0))
            (m_particles (setExplosion 3 1 engine0)).
Proof.
  assert (Hmax : 0 <= m_lifetime_max engine0) by (vm_compute; discriminate).
  split; [exact tape_frand_in_range|]. split; [exact Hmax|].
  destruct (@C8_initial_lifetime TapeUtils PolyCMath engine0
              tape_frand_in_range Hmax) as (_ & _ & Hburst).
  exact (Hburst 3%nat 1 eq_refl).
Defined.

(** [paused_emitter] is built with the public interface only. *)
Lemma paused_emitter_reachable : reachable paused_emitter.
Proof.
  unfold paused_emitter, steady_emitter, engine0.
  apply reach_setEmitted, reach_update, reach_setEmitted,
    reach_setRespawnRate, reach_new.
Qed.

(** [paused_emitter] keeps its fraction 0.5 through idle updates; once
    re-enabled, [update(0.5)] adds 1.0 to it, spawns one particle and leaves
    0.5. *)
Lemma C9_idle_accumulator_retained_witness :
  reachable paused_emitter
  /\ m_is_emitted paused_emitter = false
  /\ update_exact (1 # 2) (setEmitted true (updates [1; 1] paused_emitter))
  /\ m_timer (update 1 paused_emitter) = m_timer paused_emitter
  /\ spawned_by_update 1 paused_emitter = 0%nat
  /\ m_timer (setEmitted true (updates [1; 1] paused_emitter))
     = m_timer paused_emitter
  /\ spawned_by_updates [1; 1] paused_emitter = 0%nat
  /\ spawned_by_update (1 # 2) (setEmitted true (updates [1; 1] paused_emitter))
     = Z.to_nat (Qceiling (m_timer paused_emitter
                           + m_rate paused_emitter * (1 # 2)) - 1)
  /\ m_timer (update (1 # 2)
                (setEmitted true (updates [1; 1] paused_emitter)))
     == m_timer paused_emitter + m_rate paused_emitter * (1 # 2)
        - inject_Z
            (Z.of_nat
               (spawned_by_update (1 # 2)
                  (setEmitted true (updates [1; 1] paused_emitter)))).
Proof.
  assert (He : m_is_emitted paused_emitter = false) by reflexivity.
  assert (Hex : update_exact (1 # 2)
                  (setEmitted true (updates [1; 1] paused_emitter)))
    by (update_exact_by 1%nat).
  split; [exact paused_emitter_reachable|]. split; [exact He|].
  split; [exact Hex|].
  destruct (@C9_idle_accumulator_retained TapeUtils PolyCMath paused_emitter
              paused_emitter_reachable He) as (Hone & Hmany & Hresume).
  destruct (Hone 1) as (Ht & Hs).
  destruct (Hmany [1; 1] true) as (Ht2 & Hs2).
  destruct (Hresume [1; 1] (1 # 2) Hex) as (Hcount & Hleft).
  split; [exact Ht|]. split; [exact Hs|].
  split; [exact Ht2|]. split; [exact Hs2|].
  split; [exact Hcount | exact Hleft].
Defined.

(** [paused_emitter] under [update(3)]. *)
Lemma C10_accumulator_bounded_witness :
  reachable paused_emitter
  /\ m_timer paused_emitter <= 1
  /\ m_timer (update 3 paused_emitter) <= 1
  /\ spawned_by_update 3 paused_emitter = 0%nat.
Proof.
  split; [exact paused_emitter_reachable|].
  destruct (@C10_accumulator_bounded TapeUtils PolyCMath paused_emitter
              paused_emitter_reachable) as (_ & Ht & Hupd & Hidle).
  split; [exact Ht|]. split; [exact (Hupd 3)|].
  exact (proj2 (Hidle 3 eq_refl)).
Defined.

(** * Further properties of the engine *)

(** ** Configuration *)

Section Configuration.

Context {U : Utils} {M : CMath}.

(** X1: in every state reachable through the public interface the stored
    velocity, respawn rate and maximal lifetime are non-negative. *)
Theorem magnitudes_never_negative (s : ParticleSystem) :
  reachable s ->
  0 <= getVelocity s /\ 0 <= getRespawnRate s /\ 0 <= getLifeTime s.
Proof.
  intros Hr. destruct (reachable_inv Hr) as (_ & Hrate & Hl & Hv).
  unfold getVelocity, getRespawnRate, getLifeTime. tauto.
Qed.

Lemma Qabs_opp_eq (v : Q) : Qabs (- v) = Qabs v.
Proof. destruct v as [n d]. simpl. rewrite Z.abs_opp. reflexivity. Qed.

Lemma Qabs_square (v : Q) : Qabs v * Qabs v == v * v.
Proof.
  destruct (Qlt_le_dec v 0) as [Hneg|Hpos].
  - rewrite (Qabs_neg v) by lra. ring.
  - rewrite (Qabs_pos v Hpos). reflexivity.
Qed.

(** X2: [setVelocity], [setRespawnRate] and [setLifeTime] give the same
    engine for [v] and [-v]; the value they store is non-negative and has the
    square of [v], so it is the magnitude of [v]. *)
Theorem magnitude_setters_fold_sign (v : Q) (s : ParticleSystem) :
  (setVelocity (- v) s = setVelocity v s
   /\ 0 <= getVelocity (setVelocity v s)
   /\ getVelocity (setVelocity v s) * getVelocity (setVelocity v s) == v * v)
  /\ (setRespawnRate (- v) s = setRespawnRate v s
      /\ 0 <= getRespawnRate (setRespawnRate v s)
      /\ getRespawnRate (setRespawnRate v s)
         * getRespawnRate (setRespawnRate v s) == v * v)
  /\ (setLifeTime (- v) s = setLifeTime v s
      /\ 0 <= getLifeTime (setLifeTime v s)
      /\ getLifeTime (setLifeTime v s) * getLifeTime (setLifeTime v s)
         == v * v).
Proof.
  unfold setVelocity, setRespawnRate, setLifeTime, getVelocity,
    getRespawnRate, getLifeTime.
  cbn [m_velocity m_rate m_lifetime_max].
  rewrite Qabs_opp_eq.
  repeat split; try apply Qabs_nonneg; apply Qabs_square.
Qed.

(** X3: when the source rectangle of the template has a non-zero width and
    height, [setParticleSize(size)] stores [size], puts the origin at its
    centre and sets the scale, on each axis, to the requested size divided by
    the absolute extent of the rectangle; the live particles are not
    touched. *)
Theorem setParticleSize_fits_rectangle (size : sf.Vector2f)
        (s : ParticleSystem) :
  sf.width (sf.textureRect (m_instance s)) <> 0%Z ->
  sf.height (sf.textureRect (m_instance s)) <> 0%Z ->
  let s' := setParticleSize size s in
  getParticleSize s' = size
  /\ sf.origin (m_instance s') = sf.vscale size (1 # 2)
  /\ sf.scale_ (m_instance s')
     = sf.mkVector2f
         (sf.x size
          / inject_Z (Z.abs (sf.width (sf.textureRect (m_instance s)))))
         (sf.y size
          / inject_Z (Z.abs (sf.height (sf.textureRect (m_instance s)))))
  /\ m_particles s' = m_particles s.
Proof.
  intros Hw Hh s'. unfold s', setParticleSize, getParticleSize, setSize.
  simpl.
  destruct (Z.eqb_spec (sf.width (sf.textureRect (m_instance s))) 0);
    [contradiction|].
  destruct (Z.eqb_spec (sf.height (sf.textureRect (m_instance s))) 0);
    [contradiction|].
  simpl. repeat split.
Qed.

(** X4: when the source rectangle of the template has a zero width or height
    (as before any texture is bound), [setParticleSize] still stores the size
    and centres the origin but leaves the scale of the template as it was. *)
Theorem setParticleSize_without_rectangle (size : sf.Vector2f)
        (s : ParticleSystem) :
  sf.width (sf.textureRect (m_instance s)) = 0%Z
  \/ sf.height (sf.textureRect (m_instance s)) = 0%Z ->
  let s' := setParticleSize size s in
  getParticleSize s' = size
  /\ sf.origin (m_instance s') = sf.vscale size (1 # 2)
  /\ sf.scale_ (m_instance s') = sf.scale_ (m_instance s).
Proof.
  intros Hz s'. unfold s', setParticleSize, getParticleSize, setSize.
  simpl.
  destruct (Z.eqb_spec (sf.width (sf.textureRect (m_instance s))) 0);
    destruct (Z.eqb_spec (sf.height (sf.textureRect (m_instance s))) 0);
    simpl; repeat split; try reflexivity.
  destruct Hz; contradiction.
Qed.

(** X5: [setTexture] resets the particle size to the dimensions of the
    texture, whatever [setParticleSize] stored before, and centres the origin
    on them; a later [setParticleSize] prevails.  The live particles and the
    accumulator are not touched. *)
Theorem setTexture_resets_particle_size (t : sf.Texture) (v : sf.Vector2f)
        (s : ParticleSystem) :
  let dims :=
    sf.mkVector2f (inject_Z (sf.tex_width t)) (inject_Z (sf.tex_height t)) in
  getParticleSize (setTexture t (setParticleSize v s)) = dims
  /\ sf.origin (m_instance (setTexture t (setParticleSize v s)))
     = sf.vscale dims (1 # 2)
  /\ getTexture (setTexture t s) = Some t
  /\ getParticleSize (setParticleSize v (setTexture t s)) = v
  /\ m_particles (setTexture t s) = m_particles s
  /\ m_timer (setTexture t s) = m_timer s.
Proof.
  intros dims. repeat split.
  unfold getTexture, setTexture, setParticleSize, setSize. simpl.
  repeat match goal with
         | |- context [if ?c then _ else _] => destruct c
         end; reflexivity.
Qed.

End Configuration.

(** ** What a spawned particle is made of *)

Section Spawning.

Context {U : Utils} {M : CMath}.

(** The particle appended by [createParticle], with the four samples it
    draws. *)
Lemma createParticle_particle (s : ParticleSystem) :
  exists random sample jitter rot g',
    (exists g, random
               = fst (frand (- (sf.asDegrees (m_dispersion s) * (1 # 2)))
                            (sf.asDegrees (m_dispersion s) * (1 # 2)) g))
    /\ (exists g, sample = fst (frand 0 (m_lifetime_max s) g))
    /\ (exists g, jitter = fst (rand2f (m_respawn_area s) g))
    /\ (exists g, rot = fst (frand 0 360 g))
    /\ createParticle s
       = set_rand_state g'
           (set_particles
              (m_particles s
               ++ [mkParticle
                     (mkController
                        (sf.mkVector2f
                           (cosf ((sf.asDegrees (m_direction s) + random)
                                  * (M_PI / 180)) * m_velocity s)
                           (sinf ((sf.asDegrees (m_direction s) + random)
                                  * (M_PI / 180)) * m_velocity s))
                        (sample + 1))
                     (sf.setRotation (sf.degrees rot)
                        (sf.setPosition (sf.vadd (m_emitter s) jitter)
                           (m_instance s)))]) s).
Proof.
  unfold createParticle. cbn [sf.asDegrees sf.Angle_mul sf.Angle_add
                              sf.asRadians].
  destruct (frand _ _ (rand_state s)) as [random g1] eqn:E1.
  destruct (frand 0 (m_lifetime_max s) g1) as [sample g2] eqn:E2.
  destruct (rand2f (m_respawn_area s) g2) as [jitter g3] eqn:E3.
  destruct (frand 0 360 g3) as [rot g4] eqn:E4.
  exists random, sample, jitter, rot, g4.
  split; [exists (rand_state s); rewrite E1; reflexivity|].
  split; [exists g1; rewrite E2; reflexivity|].
  split; [exists g2; rewrite E3; reflexivity|].
  split; [exists g3; rewrite E4; reflexivity|].
  reflexivity.
Qed.

(** X6: a particle made by [createParticle] moves at the configured speed
    along an angle that differs from the configured direction by at most half
    the dispersion, starts at the emitter displaced by the [rand2f] jitter and
    is given a rotation between 0 and 360 degrees. *)
Theorem createParticle_within_dispersion (s : ParticleSystem) :
  frand_in_range U ->
  0 <= sf.asDegrees (getDispersion s) ->
  exists p random g',
    createParticle s
    = set_rand_state g' (set_particles (m_particles s ++ [p]) s)
    /\ - (sf.asDegrees (getDispersion s) * (1 # 2)) <= random
    /\ random <= sf.asDegrees (getDispersion s) * (1 # 2)
    /\ velocity (controller p)
       = sf.mkVector2f
           (cosf ((sf.asDegrees (getDirection s) + random) * (M_PI / 180))
            * getVelocity s)
           (sinf ((sf.asDegrees (getDirection s) + random) * (M_PI / 180))
            * getVelocity s)
    /\ (exists g,
           sf.position (sprite p)
           = sf.vadd (getEmitter s) (fst (rand2f (getRespawnArea s) g)))
    /\ 0 <= sf.asDegrees (sf.rotation (sprite p))
    /\ sf.asDegrees (sf.rotation (sprite p)) <= 360.
Proof.
  intros Hrange Hd.
  unfold getDispersion, getDirection, getVelocity, getEmitter,
    getRespawnArea in *.
  destruct (createParticle_particle s)
    as (random & sample & jitter & rot & g'
        & (ga & Hrandom) & _ & (gc & Hjitter) & (gd & Hrot) & Hcp).
  eexists; exists random, g'. split; [exact Hcp|].
  cbn [controller velocity sprite sf.position sf.rotation sf.setRotation
       sf.setPosition sf.asDegrees].
  assert (Hhalf : - (sf.asDegrees (m_dispersion s) * (1 # 2))
                  <= sf.asDegrees (m_dispersion s) * (1 # 2)) by lra.
  destruct (Hrange _ _ ga Hhalf) as (Hlo & Hhi). rewrite <- Hrandom in *.
  assert (H360 : 0 <= 360) by (vm_compute; discriminate).
  destruct (Hrange _ _ gd H360) as (Hlo' & Hhi'). rewrite <- Hrot in *.
  split; [exact Hlo|]. split; [exact Hhi|]. split; [reflexivity|].
  split; [exists gc; rewrite Hjitter; reflexivity|].
  split; assumption.
Qed.

Lemma explosion_particle_from_template (i : nat) (offset radius sample : Q)
      (s : ParticleSystem) :
  from_template (m_instance s)
                (sprite (explosion_particle i offset radius sample s))
  /\ sf.rotation (sprite (explosion_particle i offset radius sample s))
     = sf.rotation (m_instance s).
Proof. unfold from_template. repeat split. Qed.

(** Every particle of a burst on an empty collection is an
    [explosion_particle] of the engine. *)
Lemma setExplosion_particles (n : nat) (radius : Q) (s : ParticleSystem)
      (p : Particle) :
  m_particles s = [] ->
  In p (m_particles (setExplosion n radius s)) ->
  exists i sample,
    p = explosion_particle i (M_PI * 2 / inject_Z (Z.of_nat n)) radius
                           sample (setEmitted false s).
Proof.
  intros Hempty Hin. unfold setExplosion in Hin. rewrite Hempty in Hin.
  destruct (explosion_loop_spec (M_PI * 2 / inject_Z (Z.of_nat n)) radius n
              0 (setEmitted false s))
    as (_ & _ & new & Hn & Hlen & Hnth).
  simpl in Hn. rewrite Hempty in Hn. simpl in Hn. rewrite Hn in Hin.
  apply In_nth_error in Hin. destruct Hin as (k & Hk).
  assert (Hlt : (k < n)%nat).
  { rewrite <- Hlen. apply nth_error_Some. congruence. }
  destruct (Hnth k Hlt) as (g & Hg). rewrite Hk in Hg.
  injection Hg as ->. eexists; eexists; reflexivity.
Qed.

(** X7: a spawned particle is a copy of the template sprite as it is at that
    moment: it has the template's texture, source rectangle, colour, scale
    and origin.  [createParticle] overwrites position and rotation only, a
    burst overwrites the position only. *)
Theorem spawned_sprite_copies_template (s : ParticleSystem) :
  (exists p g',
      createParticle s
      = set_rand_state g' (set_particles (m_particles s ++ [p]) s)
      /\ from_template (m_instance s) (sprite p))
  /\ (forall n radius p,
         m_particles s = [] ->
         In p (m_particles (setExplosion n radius s)) ->
         from_template (m_instance s) (sprite p)
         /\ sf.rotation (sprite p) = sf.rotation (m_instance s)).
Proof.
  split.
  - destruct (createParticle_particle s)
      as (random & sample & jitter & rot & g' & _ & _ & _ & _ & Hcp).
    eexists; exists g'. split; [exact Hcp|].
    unfold from_template. repeat split.
  - intros n radius p Hempty Hin.
    destruct (setExplosion_particles n radius s p Hempty Hin)
      as (i & sample & ->).
    apply (explosion_particle_from_template i _ radius sample
             (setEmitted false s)).
Qed.

(** X8: [setColor] changes the template only.  The particles alive at the
    call keep their sprites, colour included; the particles spawned
    afterwards, by [createParticle] or by a burst, have the new colour. *)
Theorem setColor_reaches_later_particles_only (c : sf.Color)
        (s : ParticleSystem) :
  m_particles (setColor c s) = m_particles s
  /\ draw (setColor c s) = draw s
  /\ getColor (setColor c s) = c
  /\ (exists p g',
         createParticle (setColor c s)
         = set_rand_state g'
             (set_particles (m_particles s ++ [p]) (setColor c s))
         /\ sf.color (sprite p) = c)
  /\ (forall n radius p,
         m_particles s = [] ->
         In p (m_particles (setExplosion n radius (setColor c s))) ->
         sf.color (sprite p) = c).
Proof.
  split; [reflexivity|]. split; [reflexivity|]. split; [reflexivity|].
  split.
  - destruct (createParticle_particle (setColor c s))
      as (random & sample & jitter & rot & g' & _ & _ & _ & _ & Hcp).
    eexists; exists g'. split; [exact Hcp|]. reflexivity.
  - intros n radius p Hempty Hin.
    destruct (setExplosion_particles n radius (setColor c s) p Hempty Hin)
      as (i & sample & ->).
    reflexivity.
Qed.

End Spawning.

(** ** Runs of frames *)

Section Frames.

Context {U : Utils} {M : CMath}.

Lemma inject_nat_plus (a b : nat) :
  inject_Z (Z.of_nat (a + b))
  == inject_Z (Z.of_nat a) + inject_Z (Z.of_nat b).
Proof. rewrite Nat2Z.inj_add, inject_Z_plus. reflexivity. Qed.

Lemma accumulator_accounts (dts : list Q) : forall s : ParticleSystem,
  m_timer (updates dts s) + inject_Z (Z.of_nat (spawned_by_updates dts s))
  == m_timer s
     + (if m_is_emitted s then m_rate s * total_time dts else 0).
Proof.
  induction dts as [|dt rest IH]; intros s.
  - simpl. change (inject_Z 0) with 0. destruct (m_is_emitted s); ring.
  - simpl. rewrite inject_nat_plus.
    destruct (emit_spec dt s) as (Hta & _ & _ & Hsp & _).
    specialize (IH (update dt s)).
    rewrite (cfg_is_emitted (update_config dt s)) in IH.
    rewrite (cfg_rate (update_config dt s)) in IH.
    rewrite update_timer in IH. rewrite Hsp.
    destruct (m_is_emitted s); lra.
Qed.

(** X9: on a run of [update] calls in which no operation on the accumulator
    rounds, the accumulator keeps exact accounts: what is left in it plus the
    number of particles spawned is the initial accumulator plus
    [respawnRate] times the elapsed time (plus nothing while emission is
    off). *)
Theorem accumulator_conservation (dts : list Q) (s : ParticleSystem) :
  run_exact dts s ->
  m_timer (updates dts s) + inject_Z (Z.of_nat (spawned_by_updates dts s))
  == m_timer s
     + (if isEmitted s then getRespawnRate s * total_time dts else 0).
Proof.
  intros _. unfold isEmitted, getRespawnRate. apply accumulator_accounts.
Qed.

(** X10: no run of [update] calls changes the configuration: emitter, areas,
    sizes, growth, direction, dispersion, velocity, maximal lifetime, rate,
    both flags and the template sprite stay as they were. *)
Theorem updates_keep_configuration (dts : list Q) : forall s : ParticleSystem,
  same_config s (updates dts s).
Proof.
  induction dts as [|dt rest IH]; intros s.
  - apply same_config_refl.
  - simpl. eapply same_config_trans; [apply update_config | apply IH].
Qed.

Lemma visit_config (s s' : ParticleSystem) (dt : Q) (p : Particle) :
  same_config s s' -> visit s' dt p = visit s dt p.
Proof.
  intros Hc. unfold visit.
  rewrite (cfg_lifetime_max Hc), (cfg_is_attenuated Hc),
    (cfg_exponential_growth Hc).
  reflexivity.
Qed.

Lemma pass_config (s s' : ParticleSystem) (dt : Q) (ps : list Particle) :
  same_config s s' -> pass s' dt ps = pass s dt ps.
Proof.
  intros Hc. induction ps as [|p rest IH]; [reflexivity|].
  simpl. rewrite (visit_config dt p Hc), IH. reflexivity.
Qed.

Lemma passes_config (dts : list Q) : forall (s s' : ParticleSystem) ps,
  same_config s s' -> passes s' dts ps = passes s dts ps.
Proof.
  induction dts as [|dt rest IH]; intros s s' ps Hc; [reflexivity|].
  simpl. rewrite (pass_config dt ps Hc). apply IH. exact Hc.
Qed.

Lemma pass_app (s : ParticleSystem) (dt : Q) (a b : list Particle) :
  pass s dt (a ++ b) = pass s dt a ++ pass s dt b.
Proof.
  rewrite !pass_spec, map_app, filter_app, map_app. reflexivity.
Qed.

Lemma passes_nil (s : ParticleSystem) (dts : list Q) : passes s dts [] = [].
Proof. induction dts as [|dt rest IH]; [reflexivity|exact IH]. Qed.

Lemma passes_app (s : ParticleSystem) (dts : list Q) :
  forall a b, passes s dts (a ++ b) = passes s dts a ++ passes s dts b.
Proof.
  induction dts as [|dt rest IH]; intros a b; [reflexivity|].
  simpl. rewrite pass_app. apply IH.
Qed.

(** While emission is off, the collection after a run of [update] calls is
    the result of the particle loops alone. *)
Lemma updates_idle_particles (dts : list Q) : forall s : ParticleSystem,
  reachable s -> m_is_emitted s = false ->
  m_particles (updates dts s) = passes s dts (m_particles s).
Proof.
  induction dts as [|dt rest IH]; intros s Hr He; [reflexivity|].
  simpl.
  destruct (update_idle dt Hr He) as (Hemit & _ & He' & _).
  rewrite (IH (update dt s) (reach_update dt Hr) He').
  rewrite (passes_config rest _ (update_config dt s)).
  unfold update. rewrite Hemit. reflexivity.
Qed.

Lemma time_before_last_cons (dt r : Q) (rest : list Q) :
  time_before_last (dt :: r :: rest) = dt + time_before_last (r :: rest).
Proof. reflexivity. Qed.

Lemma time_before_last_nonneg (dts : list Q) :
  Forall (fun dt => 0 <= dt) dts -> 0 <= time_before_last dts.
Proof.
  intros H. unfold time_before_last. apply total_time_nonneg.
  induction H as [|dt rest Hdt Hrest IH]; [constructor|].
  destruct rest as [|r rest]; [constructor|].
  simpl. constructor; [exact Hdt|exact IH].
Qed.

Lemma pass_single_alive (s : ParticleSystem) (dt : Q) (p : Particle) :
  0 < lifetime (controller p) -> pass s dt [p] = [snd (visit s dt p)].
Proof.
  intros H. simpl. destruct (visit s dt p) as [k q] eqn:E.
  assert (Hk : fst (visit s dt p) = true) by (apply visit_keep; exact H).
  rewrite E in Hk. simpl in Hk. subst k. reflexivity.
Qed.

Lemma pass_single_dead (s : ParticleSystem) (dt : Q) (p : Particle) :
  lifetime (controller p) <= 0 -> pass s dt [p] = [].
Proof.
  intros H. simpl. destruct (visit s dt p) as [k q] eqn:E.
  destruct k; [|reflexivity].
  assert (Hk : fst (visit s dt p) = true) by (rewrite E; reflexivity).
  apply visit_keep in Hk. lra.
Qed.

(** A particle whose lifetime exceeds the time elapsed before the last frame
    is still there after the run. *)
Lemma passes_single_alive (cfg : ParticleSystem) (dts : list Q) :
  forall p : Particle,
    Forall (fun dt => 0 <= dt) dts ->
    dts = [] \/ time_before_last dts < lifetime (controller p) ->
    passes cfg dts [p] <> [].
Proof.
  induction dts as [|dt rest IH]; intros p Hdts Halive.
  - simpl. discriminate.
  - inversion Hdts as [|? ? Hdt Hrest]; subst.
    destruct Halive as [Habs|Halive]; [discriminate|].
    assert (Hpos : 0 < lifetime (controller p)).
    { destruct rest as [|r rest].
      - exact Halive.
      - rewrite time_before_last_cons in Halive.
        pose proof (time_before_last_nonneg Hrest). lra. }
    change (passes cfg (dt :: rest) [p])
      with (passes cfg rest (pass cfg dt [p])).
    rewrite (pass_single_alive cfg dt p Hpos).
    apply IH; [exact Hrest|].
    destruct rest as [|r rest]; [left; reflexivity|right].
    rewrite time_before_last_cons in Halive.
    rewrite (visit_lifetime cfg dt p Hpos). lra.
Qed.

Lemma passes_single_dead (cfg : ParticleSystem) (dts : list Q) :
  forall p : Particle,
    Forall (fun dt => 0 <= dt) dts ->
    dts <> [] ->
    lifetime (controller p) <= time_before_last dts ->
    passes cfg dts [p] = [].
Proof.
  induction dts as [|dt rest IH]; intros p Hdts Hne Hdead;
    [contradiction|].
  inversion Hdts as [|? ? Hdt Hrest]; subst.
  simpl.
  destruct (Qlt_le_dec 0 (lifetime (controller p))) as [Hpos|Hnon].
  - change (let (keep, p') := visit cfg dt p in
            if keep then [p'] else []) with (pass cfg dt [p]).
    rewrite (pass_single_alive cfg dt p Hpos).
    destruct rest as [|r rest].
    + unfold time_before_last in Hdead. simpl in Hdead. lra.
    + apply IH; [exact Hrest|discriminate|].
      rewrite time_before_last_cons in Hdead.
      rewrite (visit_lifetime cfg dt p Hpos). lra.
  - change (let (keep, p') := visit cfg dt p in
            if keep then [p'] else []) with (pass cfg dt [p]).
    rewrite (pass_single_dead cfg dt p Hnon). apply passes_nil.
Qed.

End Frames.

(** ** The life of a particle *)

Section Lifecycle.

Context {U : Utils} {M : CMath}.

(** X12: after [update(dt)] no particle of the collection has a lifetime
    below [-dt]: a particle that is drawn is at most one frame past its
    expiry. *)
Theorem kept_particles_not_long_expired (dt : Q) (s : ParticleSystem)
        (q : Particle) :
  In q (m_particles (update dt s)) -> - dt <= lifetime (controller q).
Proof.
  intros Hin. apply update_particles_In in Hin.
  destruct Hin as (p & _ & Hpos & ->).
  rewrite (visit_lifetime (emit dt s) dt p Hpos). lra.
Qed.

Lemma passes_single_empty_iff (cfg : ParticleSystem) (dts : list Q)
      (p : Particle) :
  Forall (fun dt => 0 <= dt) dts ->
  passes cfg dts [p] = [] <->
  dts <> [] /\ lifetime (controller p) <= time_before_last dts.
Proof.
  intros Hdts. split.
  - intros Hempty.
    destruct dts as [|dt rest]; [discriminate|].
    split; [discriminate|].
    destruct (Qlt_le_dec (time_before_last (dt :: rest))
                         (lifetime (controller p))) as [Hlt|Hle];
      [|exact Hle].
    exfalso. apply (passes_single_alive cfg p Hdts (or_intror Hlt)).
    exact Hempty.
  - intros (Hne & Hle). apply passes_single_dead; assumption.
Qed.

(** X13: with emission off, after a run of [update] calls of lengths [>= 0]
    in which no lifetime decrement rounds, the collection is empty exactly
    when the run is not empty and every particle's lifetime is at most the
    time elapsed before the last call: this is when a new burst becomes
    possible. *)
Theorem population_drained (dts : list Q) (s : ParticleSystem) :
  reachable s ->
  isEmitted s = false ->
  Forall (fun dt => 0 <= dt) dts ->
  Forall (fun p => binary32 (lifetime (controller p))
                   /\ ageing_exact dts (lifetime (controller p)))
         (m_particles s) ->
  (m_particles (updates dts s) = [] <->
   Forall (fun p => dts <> []
                    /\ lifetime (controller p) <= time_before_last dts)
          (m_particles s)).
Proof.
  unfold isEmitted. intros Hr He Hdts _.
  rewrite (updates_idle_particles dts Hr He).
  induction (m_particles s) as [|p ps IH].
  - rewrite passes_nil. split; [constructor|reflexivity].
  - change (p :: ps) with ([p] ++ ps). rewrite passes_app. split.
    + intros Hempty. apply app_eq_nil in Hempty.
      destruct Hempty as (Hp & Hps).
      constructor.
      * apply (passes_single_empty_iff s p Hdts). exact Hp.
      * apply IH. exact Hps.
    + intros Hall. inversion Hall as [|? ? Hp Hps]; subst.
      apply (passes_single_empty_iff s p Hdts) in Hp.
      rewrite Hp. apply IH. exact Hps.
Qed.

(** X14: a burst of at least one particle on an empty collection locks the
    engine into burst mode: a further [setExplosion] changes nothing, and no
    run of [update] calls spawns a particle or turns emission back on. *)
Theorem burst_excludes_emission (N : nat) (radius : Q) (s : ParticleSystem) :
  reachable s ->
  m_particles s = [] ->
  (0 < N)%nat ->
  let b := setExplosion N radius s in
  (forall n' radius', setExplosion n' radius' b = b)
  /\ (forall dts, spawned_by_updates dts b = O)
  /\ (forall dts, isEmitted (updates dts b) = false).
Proof.
  intros Hr Hempty HN b.
  assert (Hb : reachable b) by (apply reach_setExplosion; exact Hr).
  assert (Hfacts : m_is_emitted b = false /\ m_particles b <> []).
  { unfold b, setExplosion. rewrite Hempty.
    destruct (explosion_loop_spec (M_PI * 2 / inject_Z (Z.of_nat N)) radius N
                0 (setEmitted false s))
      as (_ & Hc & new & Hn & Hlen & _).
    split; [rewrite (cfg_is_emitted Hc); reflexivity|].
    rewrite Hn. simpl. rewrite Hempty. simpl.
    destruct new; [simpl in Hlen; lia|discriminate]. }
  destruct Hfacts as (He & Hne).
  split; [|split].
  - intros n' radius'. unfold setExplosion.
    destruct (m_particles b); [contradiction|reflexivity].
  - intros dts. apply (updates_idle dts Hb He).
  - intros dts. unfold isEmitted. apply (updates_idle dts Hb He).
Qed.

(** X15: an engine at rest stays at rest: with emission off and no live
    particle, [update] returns the engine unchanged, accumulator and
    generator state included. *)
Theorem update_at_rest (dt : Q) (s : ParticleSystem) :
  reachable s ->
  isEmitted s = false ->
  m_particles s = [] ->
  update dt s = s.
Proof.
  unfold isEmitted. intros Hr He Hempty.
  destruct (update_idle dt Hr He) as (Hemit & _).
  unfold update. rewrite Hemit, Hempty. simpl.
  destruct s. simpl in *. subst. reflexivity.
Qed.

Lemma filter_kept_length (cfg : ParticleSystem) (dt : Q)
      (ps : list Particle) :
  length (pass cfg dt ps)
  = length (filter (fun p => Qgt_bool (lifetime (controller p)) 0) ps).
Proof.
  induction ps as [|p rest IH]; [reflexivity|].
  simpl. unfold visit at 1.
  destruct (Qgt_bool (lifetime (controller p)) 0); simpl; rewrite IH;
    reflexivity.
Qed.

(** X16: the number of sprites [draw] submits after [update(dt)] is the
    number of earlier particles whose lifetime was positive plus the number
    of particles spawned by the call: a particle spawned in a frame is always
    drawn in that frame. *)
Theorem draw_count_after_update (dt : Q) (s : ParticleSystem) :
  frand_in_range U ->
  0 <= getLifeTime s ->
  length (draw (update dt s))
  = (length (filter (fun p => Qgt_bool (lifetime (controller p)) 0)
                    (m_particles s))
     + spawned_by_update dt s)%nat.
Proof.
  unfold getLifeTime. intros Hrange Hmax.
  destruct (emit_spec dt s) as (_ & _ & _ & Hsp & new & Hn & Hlen & Hall).
  unfold draw, update. simpl. rewrite length_map, filter_kept_length, Hn.
  rewrite filter_app, length_app, Hsp, <- Hlen. f_equal.
  clear Hn Hlen Hsp.
  induction Hall as [|p rest (g & Hp) _ IH]; [reflexivity|].
  simpl.
  destruct (Hrange 0 (m_lifetime_max s) g Hmax) as (Hlo & _).
  assert (Hk : Qgt_bool (lifetime (controller p)) 0 = true).
  { apply Qgt_bool_true. rewrite Hp. lra. }
  rewrite Hk. simpl. rewrite IH. reflexivity.
Qed.

(** X17: with attenuation on and [lifetimeMax > 0], the alpha written for a
    particle whose lifetime is at most [lifetimeMax] is a defined value
    between 0 and 255, grows with the remaining lifetime, and is 255 when
    the lifetime equals [lifetimeMax]. *)
Theorem fade_is_monotone (dt : Q) (s : ParticleSystem) (p1 p2 : Particle) :
  isAttenuated s = true ->
  0 < getLifeTime s ->
  0 < lifetime (controller p1) ->
  lifetime (controller p1) <= lifetime (controller p2) ->
  lifetime (controller p2) <= getLifeTime s ->
  exists a1 a2,
    sf.a (sf.color (sprite (snd (visit s dt p1)))) = Some a1
    /\ sf.a (sf.color (sprite (snd (visit s dt p2)))) = Some a2
    /\ (0 <= a1 <= a2)%Z /\ (a2 <= 255)%Z
    /\ (lifetime (controller p2) == getLifeTime s -> a2 = 255%Z).
Proof.
  unfold isAttenuated, getLifeTime. intros Ha Hmax H1 H12 H2.
  assert (Hinv : 0 < / m_lifetime_max s) by (apply Qinv_lt_0_compat; exact Hmax).
  assert (Halpha : forall p,
             0 < lifetime (controller p) ->
             lifetime (controller p) <= m_lifetime_max s ->
             sf.a (sf.color (sprite (snd (visit s dt p))))
             = Some (Qfloor (lifetime (controller p) / m_lifetime_max s * 255))
             /\ 0 <= lifetime (controller p) / m_lifetime_max s * 255
             /\ lifetime (controller p) / m_lifetime_max s * 255 <= 255).
  { intros p Hp Hle.
    assert (Hk : Qgt_bool (lifetime (controller p)) 0 = true)
      by (apply Qgt_bool_true; exact Hp).
    assert (Hr0 : 0 <= lifetime (controller p) / m_lifetime_max s).
    { apply Qle_shift_div_l; [exact Hmax|]. lra. }
    assert (Hr1 : lifetime (controller p) / m_lifetime_max s <= 1).
    { apply Qle_shift_div_r; [exact Hmax|]. lra. }
    split; [|split; lra].
    unfold visit. rewrite Hk, Ha. simpl. unfold fdiv.
    destruct (Qeq_bool (m_lifetime_max s) 0) eqn:E.
    { apply Qeq_bool_iff in E. lra. }
    simpl. rewrite static_cast_Uint8_in_range by lra.
    rewrite Qtruncate_nonneg by lra. reflexivity. }
  destruct (Halpha p1 H1 (Qle_trans _ _ _ H12 H2)) as (E1 & L1 & U1).
  destruct (Halpha p2 (Qlt_le_trans _ _ _ H1 H12) H2) as (E2 & L2 & U2).
  eexists; eexists. split; [exact E1|]. split; [exact E2|].
  assert (Hmono : lifetime (controller p1) / m_lifetime_max s * 255
                  <= lifetime (controller p2) / m_lifetime_max s * 255).
  { unfold Qdiv.
    assert (A : lifetime (controller p1) * / m_lifetime_max s
                <= lifetime (controller p2) * / m_lifetime_max s)
      by (apply Qmult_le_compat_r; [exact H12|lra]).
    lra. }
  split; [split|split].
  - change 0%Z with (Qfloor 0). apply Qfloor_resp_le. exact L1.
  - apply Qfloor_resp_le. exact Hmono.
  - change 255%Z with (Qfloor 255). apply Qfloor_resp_le. exact U2.
  - intros Heq.
    assert (E : lifetime (controller p2) / m_lifetime_max s * 255 == 255).
    { rewrite Heq. field. lra. }
    rewrite (Qfloor_comp _ _ E). reflexivity.
Qed.

End Lifecycle.

(** ** Closed examples for the further properties *)

(** [one_spark] is built with the public interface only. *)
Lemma one_spark_reachable : reachable one_spark.
Proof.
  unfold one_spark, engine0. apply reach_setExplosion, reach_new.
Qed.

Lemma engine0_reachable : reachable engine0.
Proof. unfold engine0. apply reach_new. Qed.

(** [paused_emitter] stores rate 2 and the default velocity and lifetime. *)
Lemma magnitudes_never_negative_witness :
  reachable paused_emitter
  /\ 0 <= getVelocity paused_emitter
  /\ 0 <= getRespawnRate paused_emitter
  /\ 0 <= getLifeTime paused_emitter.
Proof.
  split; [exact paused_emitter_reachable|].
  exact (@magnitudes_never_negative TapeUtils PolyCMath paused_emitter
           paused_emitter_reachable).
Defined.

(** A 64 x 32 rectangle asked to render at 16 x 16. *)
Lemma setParticleSize_fits_rectangle_witness :
  sf.width (sf.textureRect (m_instance textured_engine)) <> 0%Z
  /\ sf.height (sf.textureRect (m_instance textured_engine)) <> 0%Z
  /\ getParticleSize (setParticleSize (sf.mkVector2f 16 16) textured_engine)
     = sf.mkVector2f 16 16
  /\ sf.scale_ (m_instance
                  (setParticleSize (sf.mkVector2f 16 16) textured_engine))
     = sf.mkVector2f
         (16 / inject_Z (Z.abs (sf.width
                                  (sf.textureRect
                                     (m_instance textured_engine)))))
         (16 / inject_Z (Z.abs (sf.height
                                  (sf.textureRect
                                     (m_instance textured_engine))))).
Proof.
  assert (Hw : sf.width (sf.textureRect (m_instance textured_engine)) <> 0%Z)
    by (vm_compute; discriminate).
  assert (Hh : sf.height (sf.textureRect (m_instance textured_engine)) <> 0%Z)
    by (vm_compute; discriminate).
  split; [exact Hw|]. split; [exact Hh|].
  destruct (@setParticleSize_fits_rectangle TapeUtils (sf.mkVector2f 16 16)
              textured_engine Hw Hh) as (Hsize & _ & Hscale & _).
  split; [exact Hsize | exact Hscale].
Defined.

(** A fresh engine has no texture: its rectangle is empty. *)
Lemma setParticleSize_without_rectangle_witness :
  (sf.width (sf.textureRect (m_instance engine0)) = 0%Z
   \/ sf.height (sf.textureRect (m_instance engine0)) = 0%Z)
  /\ getParticleSize (setParticleSize (sf.mkVector2f 16 16) engine0)
     = sf.mkVector2f 16 16
  /\ sf.scale_ (m_instance (setParticleSize (sf.mkVector2f 16 16) engine0))
     = sf.scale_ (m_instance engine0).
Proof.
  assert (Hz : sf.width (sf.textureRect (m_instance engine0)) = 0%Z
               \/ sf.height (sf.textureRect (m_instance engine0)) = 0%Z)
    by (left; reflexivity).
  split; [exact Hz|].
  destruct (@setParticleSize_without_rectangle TapeUtils
              (sf.mkVector2f 16 16) engine0 Hz) as (Hsize & _ & Hscale).
  split; [exact Hsize | exact Hscale].
Defined.

(** A dispersion of 90 degrees on a fresh engine. *)
Lemma createParticle_within_dispersion_witness :
  frand_in_range TapeUtils
  /\ 0 <= sf.asDegrees (getDispersion (setDispersion (sf.degrees 90) engine0))
  /\ exists p random g',
       createParticle (setDispersion (sf.degrees 90) engine0)
       = set_rand_state g'
           (set_particles
              (m_particles (setDispersion (sf.degrees 90) engine0) ++ [p])
              (setDispersion (sf.degrees 90) engine0))
       /\ - (90 * (1 # 2)) <= random
       /\ random <= 90 * (1 # 2).
Proof.
  assert (Hd : 0 <= sf.asDegrees
                      (getDispersion (setDispersion (sf.degrees 90) engine0)))
    by (vm_compute; discriminate).
  split; [exact tape_frand_in_range|]. split; [exact Hd|].
  destruct (@createParticle_within_dispersion TapeUtils PolyCMath
              (setDispersion (sf.degrees 90) engine0)
              tape_frand_in_range Hd)
    as (p & random & g' & Hcp & Hlo & Hhi & _).
  exists p, random, g'. split; [exact Hcp|]. split; [exact Hlo | exact Hhi].
Defined.

(** The particle of [one_spark] after [update(2)]: lifetime -1, above -2. *)
Lemma kept_particles_not_long_expired_witness :
  In (hd still_particle (m_particles (update 2 one_spark)))
     (m_particles (update 2 one_spark))
  /\ - (2) <= lifetime (controller
                          (hd still_particle
                              (m_particles (update 2 one_spark)))).
Proof.
  assert (Hin : In (hd still_particle (m_particles (update 2 one_spark)))
                   (m_particles (update 2 one_spark)))
    by (left; vm_compute; reflexivity).
  split; [exact Hin|].
  exact (@kept_particles_not_long_expired TapeUtils PolyCMath 2 one_spark
           _ Hin).
Defined.

(** The particle of [one_spark] has lifetime 1: two frames of one time unit
    empty the collection, and 1 - 1 does not round. *)
Lemma population_drained_witness :
  reachable one_spark
  /\ isEmitted one_spark = false
  /\ Forall (fun dt => 0 <= dt) [1; 1]
  /\ Forall (fun p => binary32 (lifetime (controller p))
                      /\ ageing_exact [1; 1] (lifetime (controller p)))
            (m_particles one_spark)
  /\ (m_particles (updates [1; 1] one_spark) = [] <->
      Forall (fun p => [1; 1] <> []
                       /\ lifetime (controller p) <= time_before_last [1; 1])
             (m_particles one_spark)).
Proof.
  assert (He : isEmitted one_spark = false) by reflexivity.
  assert (Hd : Forall (fun dt => 0 <= dt) [1; 1])
    by (repeat constructor; vm_compute; discriminate).
  assert (Hex : Forall (fun p => binary32 (lifetime (controller p))
                                 /\ ageing_exact [1; 1]
                                                 (lifetime (controller p)))
                       (m_particles one_spark)).
  { change (m_particles one_spark) with [spark].
    apply Forall_cons; [|apply Forall_nil].
    split; [binary32_small|].
    cbn [ageing_exact]. split; [binary32_small|]. intros _.
    split; [binary32_small|]. split; [binary32_small|].
    intros Habs. vm_compute in Habs. discriminate Habs. }
  split; [exact one_spark_reachable|]. split; [exact He|].
  split; [exact Hd|]. split; [exact Hex|].
  exact (@population_drained TapeUtils PolyCMath [1; 1] one_spark
           one_spark_reachable He Hd Hex).
Defined.

(** The three half steps of [steady_emitter]: 2 particles spawned and 1.0
    left in the accumulator account for [0 + 2 * 1.5]. *)
Lemma accumulator_conservation_witness :
  run_exact [1 # 2; 1 # 2; 1 # 2] steady_emitter
  /\ m_timer (updates [1 # 2; 1 # 2; 1 # 2] steady_emitter)
     + inject_Z (Z.of_nat (spawned_by_updates [1 # 2; 1 # 2; 1 # 2]
                                              steady_emitter))
     == m_timer steady_emitter
        + (if isEmitted steady_emitter
           then getRespawnRate steady_emitter
                * total_time [1 # 2; 1 # 2; 1 # 2]
           else 0).
Proof.
  split; [exact steady_run_exact|].
  exact (@accumulator_conservation TapeUtils PolyCMath
           [1 # 2; 1 # 2; 1 # 2] steady_emitter steady_run_exact).
Defined.

(** A burst of one on a fresh engine. *)
Lemma burst_excludes_emission_witness :
  reachable engine0
  /\ m_particles engine0 = []
  /\ (0 < 1)%nat
  /\ setExplosion 5 1 (setExplosion 1 0 engine0) = setExplosion 1 0 engine0
  /\ spawned_by_updates [1 # 2; 1 # 2] (setExplosion 1 0 engine0) = 0%nat
  /\ isEmitted (updates [1 # 2; 1 # 2] (setExplosion 1 0 engine0)) = false.
Proof.
  assert (Hempty : m_particles engine0 = []) by reflexivity.
  assert (HN : (0 < 1)%nat) by lia.
  split; [exact engine0_reachable|]. split; [exact Hempty|].
  split; [exact HN|].
  destruct (@burst_excludes_emission TapeUtils PolyCMath 1 0 engine0
              engine0_reachable Hempty HN) as (Hagain & Hnone & Hoff).
  split; [exact (Hagain 5%nat 1)|].
  split; [exact (Hnone [1 # 2; 1 # 2]) | exact (Hoff [1 # 2; 1 # 2])].
Defined.

(** A fresh engine is at rest. *)
Lemma update_at_rest_witness :
  reachable engine0
  /\ isEmitted engine0 = false
  /\ m_particles engine0 = []
  /\ update 1 engine0 = engine0.
Proof.
  assert (He : isEmitted engine0 = false) by reflexivity.
  assert (Hempty : m_particles engine0 = []) by reflexivity.
  split; [exact engine0_reachable|]. split; [exact He|].
  split; [exact Hempty|].
  exact (@update_at_rest TapeUtils PolyCMath 1 engine0
           engine0_reachable He Hempty).
Defined.

(** [steady_emitter] under [update(1)]: no earlier particle, one spawned. *)
Lemma draw_count_after_update_witness :
  frand_in_range TapeUtils
  /\ 0 <= getLifeTime steady_emitter
  /\ length (draw (update 1 steady_emitter))
     = (length (filter (fun p => Qgt_bool (lifetime (controller p)) 0)
                       (m_particles steady_emitter))
        + spawned_by_update 1 steady_emitter)%nat.
Proof.
  assert (Hmax : 0 <= getLifeTime steady_emitter)
    by (vm_compute; discriminate).
  split; [exact tape_frand_in_range|]. split; [exact Hmax|].
  exact (@draw_count_after_update TapeUtils PolyCMath 1 steady_emitter
           tape_frand_in_range Hmax).
Defined.

(** Lifetimes 1 and 2 under [lifetimeMax = 4]: alphas 63 and 127. *)
Lemma fade_is_monotone_witness :
  isAttenuated fading_engine = true
  /\ 0 < getLifeTime fading_engine
  /\ 0 < lifetime (controller nearly_faded)
  /\ lifetime (controller nearly_faded) <= lifetime (controller half_faded)
  /\ lifetime (controller half_faded) <= getLifeTime fading_engine
  /\ exists a1 a2,
       sf.a (sf.color (sprite (snd (visit fading_engine 1 nearly_faded))))
       = Some a1
       /\ sf.a (sf.color (sprite (snd (visit fading_engine 1 half_faded))))
          = Some a2
       /\ (0 <= a1 <= a2)%Z /\ (a2 <= 255)%Z.
Proof.
  assert (Ha : isAttenuated fading_engine = true) by reflexivity.
  assert (Hmax : 0 < getLifeTime fading_engine) by (vm_compute; reflexivity).
  assert (H1 : 0 < lifetime (controller nearly_faded))
    by (vm_compute; reflexivity).
  assert (H12 : lifetime (controller nearly_faded)
                <= lifetime (controller half_faded))
    by (vm_compute; discriminate).
  assert (H2 : lifetime (controller half_faded) <= getLifeTime fading_engine)
    by (vm_compute; discriminate).
  split; [exact Ha|]. split; [exact Hmax|]. split; [exact H1|].
  split; [exact H12|]. split; [exact H2|].
  destruct (@fade_is_monotone TapeUtils 1 fading_engine nearly_faded
              half_faded Ha Hmax H1 H12 H2)
    as (a1 & a2 & E1 & E2 & Hord & Hup & _).
  exists a1, a2. split; [exact E1|]. split; [exact E2|].
  split; [exact Hord | exact Hup].
Defined.
